(** * nano: connection handling and message dispatch (handler.go)

    A shallow embedding of [handler.go]: the handler registry
    ([register]), the per-connection read loop ([handle]), the packet
    state machine ([processPacket]), the message router
    ([processMessage]), the dispatch loop ([dispatch]) and the protected
    call ([pcall]), followed by the properties of the specification that
    talk about them.

    Conventions of the embedding.
    - Go's [error] values are the strings of their messages; [nil] is
      [None].
    - A pointer to an agent is its address [N]; the reader goroutine owns
      the agent it works on and passes it along as a value, the dispatch
      loop reaches the agents through a heap.
    - A buffered channel is its buffer, its capacity and its closed flag;
      a send that cannot complete is reported as such, it never discards
      what is sent.
    - [logger.Println] appends a structured entry to a log.
    - [time.Now()] is the parameter [now]. *)

From Stdlib Require Import ZArith List Bool Lia.
From stdpp Require Import gmap strings list fin_maps.

Local Open Scope Z_scope.

Abbreviation bytes := (list Byte.byte).

(** ** Results of fallible and of panicking code *)

Inductive result (A : Type) : Type :=
| Ok (x : A)
| Err (e : string).
Arguments Ok {A} x.
Arguments Err {A} e.

(** A Go call either returns or panics with a value. *)
Inductive exec (A : Type) : Type :=
| Done (x : A)
| Panic (v : string).
Arguments Done {A} x.
Arguments Panic {A} v.

(** ** Buffered channels *)

Record chan (A : Type) : Type := MkChan {
  ch_buf : list A;
  ch_cap : nat;
  ch_closed : bool
}.
Arguments MkChan {A} ch_buf ch_cap ch_closed.
Arguments ch_buf {A} c.
Arguments ch_cap {A} c.
Arguments ch_closed {A} c.

(** [make(chan A, n)] *)
Definition make_chan {A : Type} (n : nat) : chan A := MkChan [] n false.

Inductive send_result (A : Type) : Type :=
| Sent (c : chan A)        (* the value is in the buffer *)
| WouldBlock               (* the buffer is full: the sender waits *)
| SendOnClosed.            (* run-time panic *)
Arguments Sent {A} c.
Arguments WouldBlock {A}.
Arguments SendOnClosed {A}.

(** [c <- x] *)
Definition chan_send {A : Type} (c : chan A) (x : A) : send_result A :=
  if ch_closed c then SendOnClosed
  else if (length (ch_buf c) <? ch_cap c)%nat
       then Sent (MkChan (ch_buf c ++ [x]) (ch_cap c) (ch_closed c))
       else WouldBlock.

(** [x := <-c], for a receiver that was selected because a value is
    ready. *)
Definition chan_recv {A : Type} (c : chan A) : option (A * chan A) :=
  match ch_buf c with
  | [] => None
  | x :: rest => Some (x, MkChan rest (ch_cap c) (ch_closed c))
  end.

(** [close(c)] *)
Definition chan_close {A : Type} (c : chan A) : chan A :=
  MkChan (ch_buf c) (ch_cap c) true.

(** ** Packets and messages (packages [packet] and [message]) *)

Module packet.

(** Modelled from the spec: package [packet] is not under src/. The
    spec gives the four type tags below; [Other] stands for any tag no
    case of [processPacket] mentions. *)
Inductive Kind : Type :=
| Handshake
| HandshakeAck
| Heartbeat
| Data
| Other.

Record Packet : Type := MkPacket {
  p_Type : Kind;
  p_Data : bytes
}.

End packet.

Module message.

(** Modelled from the spec: package [message] is not under src/. The
    spec gives the tags [Request] and [Notify]; [Other] stands for any
    further tag of the codec. *)
Inductive Kind : Type :=
| Request
| Notify
| Other.

Definition Kind_eqb (a b : Kind) : bool :=
  match a, b with
  | Request, Request | Notify, Notify | Other, Other => true
  | _, _ => false
  end.

Record Message : Type := MkMessage {
  m_Type : Kind;
  m_ID : Z;            (* uint *)
  m_Route : string;
  m_Data : bytes
}.

End message.

(** ** Sessions, connections, agents *)

Record HandShakeSys : Type := MkSys {
  sys_Type : string;
  sys_Version : string
}.

Record HandShakeData : Type := MkHandShakeData {
  Token : string;
  GameID : Z;            (* uint32 *)
  FishLaunchVersion : string;
  Sys : HandShakeSys
}.

Record Session : Type := MkSession {
  s_ID : Z;
  s_UID : Z;
  Auth : bool;
  LastHandlerAccessTime : Z
}.

(** A [net.Conn]: what was written to it so far, the error its [Write]
    returns (if it fails), and whether it was closed. *)
Record Conn : Type := MkConn {
  RemoteAddr : string;
  write_err : option string;
  written : list bytes;
  conn_closed : bool
}.

(** [conn.Write(b)] *)
Definition conn_Write (c : Conn) (b : bytes) : Conn * option string :=
  match write_err c with
  | Some e => (c, Some e)
  | None => (MkConn (RemoteAddr c) (write_err c) (written c ++ [b]) (conn_closed c), None)
  end.

Definition conn_Close (c : Conn) : Conn :=
  MkConn (RemoteAddr c) (write_err c) (written c) true.

(** Modelled from the spec: the status constants are declared outside
    src/. The spec lists the phases in the order Start,
    Handshake-Ack-Pending, Working, Closed; [processPacket] compares them
    as integers. *)
Definition statusStart : Z := 1.
Definition statusHandshake : Z := 2.
Definition statusWorking : Z := 3.
Definition statusClosed : Z := 4.

Record agent : Type := MkAgent {
  a_ptr : N;                 (* the address of this agent *)
  conn : Conn;
  session : Session;
  state : Z;                 (* int32, read and written atomically *)
  lastAt : Z;
  lastMid : Z;
  decoder : bytes;           (* bytes the packet decoder still holds *)
  kicked : option string     (* the payload [Kick] was called with *)
}.

Definition status (a : agent) : Z := state a.

Definition setStatus (a : agent) (s : Z) : agent :=
  MkAgent (a_ptr a) (conn a) (session a) s (lastAt a) (lastMid a) (decoder a) (kicked a).

Definition set_conn (a : agent) (c : Conn) : agent :=
  MkAgent (a_ptr a) c (session a) (state a) (lastAt a) (lastMid a) (decoder a) (kicked a).

Definition set_session (a : agent) (s : Session) : agent :=
  MkAgent (a_ptr a) (conn a) s (state a) (lastAt a) (lastMid a) (decoder a) (kicked a).

Definition set_lastAt (a : agent) (t : Z) : agent :=
  MkAgent (a_ptr a) (conn a) (session a) (state a) t (lastMid a) (decoder a) (kicked a).

Definition set_lastMid (a : agent) (mid : Z) : agent :=
  MkAgent (a_ptr a) (conn a) (session a) (state a) (lastAt a) mid (decoder a) (kicked a).

Definition set_decoder (a : agent) (d : bytes) : agent :=
  MkAgent (a_ptr a) (conn a) (session a) (state a) (lastAt a) (lastMid a) d (kicked a).

Definition set_Auth (s : Session) (b : bool) : Session :=
  MkSession (s_ID s) (s_UID s) b (LastHandlerAccessTime s).

Definition set_LastHandlerAccessTime (s : Session) (t : Z) : Session :=
  MkSession (s_ID s) (s_UID s) (Auth s) t.

(** Modelled from the spec: [newAgent] is declared in agent.go, which is
    not under src/. A new agent is in the Start phase, bound to its
    connection and to a fresh session. *)
Definition newAgent (ptr : N) (c : Conn) (s : Session) (now : Z) : agent :=
  MkAgent ptr c s statusStart now 0 [] None.

(** Modelled from the spec: [agent.Kick] is declared in agent.go, which
    is not under src/. The spec: the session is terminated with the
    caller-supplied error payload, which is sent to the client, and the
    connection is closed. *)
Definition agent_Kick (a : agent) (v : string) : agent :=
  MkAgent (a_ptr a) (conn_Close (conn a)) (session a) (state a) (lastAt a)
          (lastMid a) (decoder a) (Some v).

(** Modelled from the spec: [agent.Close] is declared in agent.go, which
    is not under src/. The spec: Closed is set on explicit close and is
    terminal; the connection is closed. *)
Definition agent_Close (a : agent) : agent :=
  set_conn (setStatus a statusClosed) (conn_Close (conn a)).

(** ** Handlers, work items and the handler service *)

(** What the serializer made of a payload, or the payload itself for a
    handler that takes the raw bytes. *)
Inductive Data : Type :=
| RawData (b : bytes)
| Decoded (ty : N) (v : string).

(** The [reflect.Value]s a handler is called with. The response function
    is a closure over the agent and over [lastMid]. *)
Inductive Arg : Type :=
| ArgReceiver (r : N)
| ArgSrv (ptr : N)
| ArgData (d : Data)
| ArgResFunc (ptr : N) (mid : Z).

Definition is_ResFunc (x : Arg) : bool :=
  match x with
  | ArgResFunc _ _ => true
  | _ => false
  end.

(** [component.Handler] *)
Record Handler : Type := MkHandler {
  Receiver : N;
  Method : N;
  Type_ : N;
  IsRawArg : bool
}.

(** [component.Service], after [NewService]. [Handlers] is a Go map. *)
Record Service : Type := MkService {
  Name : string;
  Handlers : gmap string Handler
}.

(** Modelled from the spec: package [component] is not under src/. A
    component, with its options, determines the name of its service and
    what [ExtractHandler] finds: an error, or the table of its handlers. *)
Record Component : Type := MkComponent {
  comp_Name : string;
  comp_Extract : result (gmap string Handler)
}.

Record unhandledMessage : Type := MkUnhandled {
  um_agent : N;
  um_lastMid : Z;
  um_handler : N;
  um_args : list Arg
}.

Record handlerService : Type := MkHandlerService {
  services : gmap string Service;
  handlers : gmap string Handler;
  chLocalProcess : chan unhandledMessage;
  chCloseSession : chan Session
}.

(** Unhandled message buffer size *)
Definition packetBacklog : nat := 1024.

Definition newHandlerService : handlerService :=
  MkHandlerService ∅ ∅ (make_chan packetBacklog) (make_chan packetBacklog).

Definition set_chLocalProcess (h : handlerService) (c : chan unhandledMessage)
  : handlerService :=
  MkHandlerService (services h) (handlers h) c (chCloseSession h).

(** ** Package state and collaborators *)

Inductive LogEntry : Type :=
| LogDispatchPanic (v : string)            (* "nano/dispatch: %v" *)
| LogSessionClosedPanic (v : string)       (* "nano/onSessionClosed: %v" *)
| LogStack                                 (* println(stack()) *)
| LogError (e : string)                    (* logger.Println(err.Error()) *)
| LogNewSession (ptr : N)
| LogReadExit (sid uid : Z)
| LogReadError (e : string)
| LogHandshake (sid : Z) (remote : string)
| LogHandshakeAck (sid : Z) (remote : string)
| LogNotFound (route : string)
| LogBrokenPipeline (e : string)
| LogDeserialize (e : string)
| LogMessage (uid : Z) (m : message.Message) (d : Data)
| LogRegistered (name : string).

(** The fields of [env] this file uses. *)
Record Env : Type := MkEnv {
  authFunc : option (Session -> option HandShakeData -> option string);
  debug : bool;
  dict : gmap string Z;                      (* map[string]uint16 *)
  callbacks : list (Session -> exec unit)
}.

(** Package-level state: [env], the two precomputed frames, the inbound
    pipeline, and the route dictionary of package [message]. *)
Record Pkg : Type := MkPkg {
  env : Env;
  hrd : bytes;
  hbd : bytes;
  Pipeline_Inbound : list (Session -> bytes -> result bytes);
  message_routes : gmap string Z
}.

(** The collaborators outside this file: the serializer, the message and
    packet codecs, and the reflective call of a handler method. *)
Record Externals : Type := MkExternals {
  Unmarshal_HandShakeData : bytes -> option HandShakeData;
  Unmarshal : N -> bytes -> result string;
  message_Decode : bytes -> result message.Message;
  decoder_Decode : bytes -> bytes -> result (list packet.Packet * bytes);
  Func_Call : N -> list Arg -> exec (list (option string))
}.

(** ** The reader side: state threaded through one connection *)

Record RState : Type := MkRState {
  rs_h : handlerService;
  rs_agent : agent;
  rs_log : list LogEntry
}.

Definition println (e : LogEntry) (st : RState) : RState :=
  MkRState (rs_h st) (rs_agent st) (rs_log st ++ [e]).

Definition debugln (G : Pkg) (e : LogEntry) (st : RState) : RState :=
  if debug (env G) then println e st else st.

Definition with_agent (st : RState) (a : agent) : RState :=
  MkRState (rs_h st) a (rs_log st).

Definition with_h (st : RState) (h : handlerService) : RState :=
  MkRState h (rs_agent st) (rs_log st).

(** How [processMessage] ends. *)
Inductive msg_result : Type :=
| MDropped                          (* logged, returned before the send *)
| MEnqueued                         (* the work item is in the channel *)
| MBlocked (m : unhandledMessage)   (* the send waits on a full channel *)
| MPanic.                           (* send on a closed channel *)

(** How [processPacket] ends. *)
Inductive pkt_result : Type :=
| PReturn (err : option string)
| PBlocked (m : unhandledMessage)
| PPanic.

(** The loop over [Pipeline.Inbound.handlers]. *)
Fixpoint run_pipeline (hs : list (Session -> bytes -> result bytes))
         (s : Session) (payload : bytes) : result bytes :=
  match hs with
  | [] => Ok payload
  | f :: rest =>
      match f s payload with
      | Err e => Err e
      | Ok payload' => run_pipeline rest s payload'
      end
  end.

Definition processMessage (X : Externals) (G : Pkg) (now : Z)
           (st : RState) (msg : message.Message) : RState * msg_result :=
  let a := rs_agent st in
  let lastMid :=
    match message.m_Type msg with
    | message.Request => message.m_ID msg
    | message.Notify => 0
    | message.Other => 0
    end in
  match handlers (rs_h st) !! message.m_Route msg with
  | None => (println (LogNotFound (message.m_Route msg)) st, MDropped)
  | Some handler =>
      match run_pipeline (Pipeline_Inbound G) (session a) (message.m_Data msg) with
      | Err e => (println (LogBrokenPipeline e) st, MDropped)
      | Ok payload =>
          let decoded :=
            if IsRawArg handler then Ok (RawData payload)
            else match Unmarshal X (Type_ handler) payload with
                 | Ok v => Ok (Decoded (Type_ handler) v)
                 | Err e => Err e
                 end in
          match decoded with
          | Err e => (println (LogDeserialize e) st, MDropped)
          | Ok data =>
              let st1 := debugln G (LogMessage (s_UID (session a)) msg data) st in
              let a1 := set_session a (set_LastHandlerAccessTime (session a) now) in
              let args := [ArgReceiver (Receiver handler); ArgSrv (a_ptr a); ArgData data] in
              let args :=
                if message.Kind_eqb (message.m_Type msg) message.Request
                then args ++ [ArgResFunc (a_ptr a) lastMid]
                else args in
              let item := MkUnhandled (a_ptr a) lastMid (Method handler) args in
              let st2 := with_agent st1 a1 in
              match chan_send (chLocalProcess (rs_h st2)) item with
              | Sent c => (with_h st2 (set_chLocalProcess (rs_h st2) c), MEnqueued)
              | WouldBlock => (st2, MBlocked item)
              | SendOnClosed => (st2, MPanic)
              end
          end
      end
  end.

(** What follows the call of [processMessage] in [processPacket]: once
    the call has returned, [lastAt] is set and [nil] is returned. *)
Definition after_message (now : Z) (res : RState * msg_result)
  : RState * pkt_result :=
  match res with
  | (st', MDropped) | (st', MEnqueued) =>
      (with_agent st' (set_lastAt (rs_agent st') now), PReturn None)
  | (st', MBlocked m) => (st', PBlocked m)
  | (st', MPanic) => (st', PPanic)
  end.

Definition processPacket (X : Externals) (G : Pkg) (now : Z)
           (st : RState) (p : packet.Packet) : RState * pkt_result :=
  let a := rs_agent st in
  let finish (st' : RState) : RState * pkt_result :=
    (with_agent st' (set_lastAt (rs_agent st') now), PReturn None) in
  match packet.p_Type p with
  | packet.Handshake =>
      let handShakeData := Unmarshal_HandShakeData X (packet.p_Data p) in
      match authFunc (env G) with
      | Some auth =>
          match auth (session a) handShakeData with
          | Some errMsg => finish (with_agent st (agent_Kick a errMsg))
          | None =>
              match conn_Write (conn a) (hrd G) with
              | (c, Some err) => (with_agent st (set_conn a c), PReturn (Some err))
              | (c, None) =>
                  let a1 := set_conn a c in
                  let a2 := set_session a1 (set_Auth (session a1) true) in
                  let a3 := setStatus a2 statusHandshake in
                  finish (debugln G (LogHandshake (s_ID (session a3)) (RemoteAddr (conn a3)))
                                  (with_agent st a3))
              end
          end
      | None =>
          match conn_Write (conn a) (hrd G) with
          | (c, Some err) => (with_agent st (set_conn a c), PReturn (Some err))
          | (c, None) => finish (with_agent st (set_conn a c))
          end
      end
  | packet.HandshakeAck =>
      let a1 := setStatus a statusWorking in
      finish (debugln G (LogHandshakeAck (s_ID (session a1)) (RemoteAddr (conn a1)))
                      (with_agent st a1))
  | packet.Data =>
      if status a <? statusWorking
      then (st, PReturn (Some ("receive data on socket which not yet ACK, session will be closed immediately, remote=" +:+ RemoteAddr (conn a))))
      else match message_Decode X (packet.p_Data p) with
           | Err e => (st, PReturn (Some e))
           | Ok msg =>
               after_message now (processMessage X G now st msg)
           end
  | packet.Heartbeat => finish st
  | packet.Other => finish st
  end.

(** ** The read loop of one connection ([handle]) *)

(** What one [conn.Read] brings. *)
Inductive read_result : Type :=
| ReadErr (e : string)
| ReadOk (chunk : bytes).

(** How far the reader goroutine got. *)
Inductive loop_exit : Type :=
| Returned                           (* the loop returned: the connection is given up *)
| WaitingRead                        (* blocked in [conn.Read] *)
| BlockedSend (m : unhandledMessage) (* blocked in the send of [processMessage] *)
| Panicked.

(** [for i := range packets]: stops at the first packet that does not
    return [nil]. *)
Fixpoint processPackets (X : Externals) (G : Pkg) (now : Z)
         (st : RState) (ps : list packet.Packet) : RState * pkt_result :=
  match ps with
  | [] => (st, PReturn None)
  | p :: rest =>
      match processPacket X G now st p with
      | (st', PReturn None) => processPackets X G now st' rest
      | other => other
      end
  end.

(** The read loop, over what the successive reads bring. A read on a
    closed connection fails. *)
Fixpoint readLoop (X : Externals) (G : Pkg) (now : Z)
         (reads : list read_result) (st : RState) : RState * loop_exit :=
  if conn_closed (conn (rs_agent st))
  then (println (LogReadError "use of closed network connection") st, Returned)
  else
    match reads with
    | [] => (st, WaitingRead)
    | ReadErr e :: _ => (println (LogReadError e) st, Returned)
    | ReadOk chunk :: rest =>
        match decoder_Decode X (decoder (rs_agent st)) chunk with
        | Err e => (println (LogError e) st, Returned)
        | Ok (packets, held) =>
            let st1 := with_agent st (set_decoder (rs_agent st) held) in
            match processPackets X G now st1 packets with
            | (st2, PReturn None) => readLoop X G now rest st2
            | (st2, PReturn (Some e)) => (println (LogError e) st2, Returned)
            | (st2, PBlocked m) => (st2, BlockedSend m)
            | (st2, PPanic) => (st2, Panicked)
            end
        end
    end.

(** The deferred function of [handle]. *)
Definition handle_deferred (G : Pkg) (st : RState) : RState :=
  let a := agent_Close (rs_agent st) in
  debugln G (LogReadExit (s_ID (session a)) (s_UID (session a))) (with_agent st a).

Definition handle (X : Externals) (G : Pkg) (now : Z) (h : handlerService)
           (log : list LogEntry) (ptr : N) (c : Conn) (s : Session)
           (reads : list read_result) : RState * loop_exit :=
  let a := newAgent ptr c s now in
  let st := debugln G (LogNewSession ptr) (MkRState h a log) in
  match readLoop X G now reads st with
  | (st', Returned) => (handle_deferred G st', Returned)
  | (st', Panicked) => (handle_deferred G st', Panicked)
  | other => other
  end.

(** ** The protected call ([pcall]) *)

(** [defer func() { if err := recover(); err != nil { ... } }()] around a
    body: a panic of the body is turned into log entries and a normal
    return. *)
Definition with_recover (on_panic : string -> list LogEntry)
           (body : exec unit * list LogEntry) : exec unit * list LogEntry :=
  match body with
  | (Done x, l) => (Done x, l)
  | (Panic v, l) => (Done tt, l ++ on_panic v)
  end.

Definition pcall (X : Externals) (method : N) (args : list Arg)
  : exec unit * list LogEntry :=
  with_recover (fun v => [LogDispatchPanic v; LogStack])
    match Func_Call X method args with
    | Panic v => (Panic v, [])
    | Done r =>
        match r with
        | Some e :: _ => (Done tt, [LogError e])
        | _ => (Done tt, [])
        end
    end.

(** The loop over [env.callbacks]: the first panic ends it. *)
Fixpoint run_callbacks (fns : list (Session -> exec unit)) (s : Session)
  : exec unit :=
  match fns with
  | [] => Done tt
  | fn :: rest =>
      match fn s with
      | Done _ => run_callbacks rest s
      | Panic v => Panic v
      end
  end.

Definition onSessionClosed (G : Pkg) (s : Session) : exec unit * list LogEntry :=
  with_recover (fun v => [LogSessionClosedPanic v; LogStack])
    (run_callbacks (callbacks (env G)) s, []).

(** ** The dispatch loop ([dispatch]) *)

Record DState : Type := MkDState {
  d_h : handlerService;
  d_heap : gmap N agent;                 (* the agents, by address *)
  d_spawned : list (N * list Arg);       (* [go pcall(m.handler, m.args)] *)
  d_timers : gmap Z Z;                   (* [timerManager.timers] *)
  d_cron : nat;                          (* calls of [cron()] *)
  d_ticker_stopped : bool;
  d_log : list LogEntry
}.

(** The case [select] picks. *)
Inductive select_case : Type :=
| CaseLocalProcess
| CaseCloseSession
| CaseTicker
| CaseCreatedTimer (id t : Z)
| CaseClosingTimer (id : Z)
| CaseDie.

(** One round of the [select]. A receive case whose channel holds nothing
    was not ready: the round leaves the state as it is. *)
Definition dispatch_step (G : Pkg) (d : DState) (c : select_case) : DState :=
  match c with
  | CaseLocalProcess =>
      match chan_recv (chLocalProcess (d_h d)) with
      | None => d
      | Some (m, ch) =>
          let h' := set_chLocalProcess (d_h d) ch in
          match d_heap d !! um_agent m with
          | Some a =>
              if status a =? statusClosed
              then MkDState h' (d_heap d) (d_spawned d) (d_timers d) (d_cron d)
                            (d_ticker_stopped d) (d_log d)
              else MkDState h' (<[um_agent m := set_lastMid a (um_lastMid m)]> (d_heap d))
                            (d_spawned d ++ [(um_handler m, um_args m)])
                            (d_timers d) (d_cron d) (d_ticker_stopped d) (d_log d)
          | None =>
              MkDState h' (d_heap d) (d_spawned d) (d_timers d) (d_cron d)
                       (d_ticker_stopped d) (d_log d)
          end
      end
  | CaseCloseSession =>
      match chan_recv (chCloseSession (d_h d)) with
      | None => d
      | Some (s, ch) =>
          MkDState (MkHandlerService (services (d_h d)) (handlers (d_h d))
                                     (chLocalProcess (d_h d)) ch)
                   (d_heap d) (d_spawned d) (d_timers d) (d_cron d)
                   (d_ticker_stopped d) (d_log d ++ snd (onSessionClosed G s))
      end
  | CaseTicker =>
      MkDState (d_h d) (d_heap d) (d_spawned d) (d_timers d) (S (d_cron d))
               (d_ticker_stopped d) (d_log d)
  | CaseCreatedTimer id t =>
      MkDState (d_h d) (d_heap d) (d_spawned d) (<[id := t]> (d_timers d)) (d_cron d)
               (d_ticker_stopped d) (d_log d)
  | CaseClosingTimer id =>
      MkDState (d_h d) (d_heap d) (d_spawned d) (delete id (d_timers d)) (d_cron d)
               (d_ticker_stopped d) (d_log d)
  | CaseDie => d
  end.

(** The deferred function of [dispatch]. *)
Definition dispatch_deferred (d : DState) : DState :=
  MkDState (MkHandlerService (services (d_h d)) (handlers (d_h d))
                             (chan_close (chLocalProcess (d_h d)))
                             (chan_close (chCloseSession (d_h d))))
           (d_heap d) (d_spawned d) (d_timers d) (d_cron d) true (d_log d).

(** The loop, over the cases the successive [select]s pick; [true] when
    the loop has returned. *)
Fixpoint dispatch (G : Pkg) (cases : list select_case) (d : DState)
  : DState * bool :=
  match cases with
  | [] => (d, false)
  | CaseDie :: _ => (dispatch_deferred d, true)
  | c :: rest => dispatch G rest (dispatch_step G d c)
  end.

(** What the goroutines spawned by the loop do: each runs [pcall]. *)
Definition run_spawned (X : Externals) (d : DState)
  : list (exec unit * list LogEntry) :=
  (fun job => pcall X job.1 job.2) <$> d_spawned d.

(** ** Registration ([register]) *)

(** What [register] works on: the handler service and the package state
    ([env.dict] and the dictionary of package [message]). *)
Record Registry : Type := MkRegistry {
  r_h : handlerService;
  r_pkg : Pkg
}.

Definition uint16 (n : Z) : Z := n mod 65536.

Definition set_dict (G : Pkg) (d : gmap string Z) : Pkg :=
  MkPkg (MkEnv (authFunc (env G)) (debug (env G)) d (callbacks (env G)))
        (hrd G) (hbd G) (Pipeline_Inbound G) (message_routes G).

(** Modelled from the spec: [message.SetDictionary] is declared in
    package [message], which is not under src/. The spec: the updated
    alias dictionary is published to the message codec. *)
Definition message_SetDictionary (G : Pkg) (d : gmap string Z) : Pkg :=
  MkPkg (env G) (hrd G) (hbd G) (Pipeline_Inbound G) d.

(** [fmt.Sprintf("%s.%s", s.Name, name)] *)
Definition fullName (sname name : string) : string := sname +:+ "." +:+ name.

(** [env.dict[fullName] = uint16(len(env.dict)) + 1] *)
Definition assign_alias (sname : string) (d : gmap string Z) (name : string)
  : gmap string Z :=
  <[fullName sname name := uint16 (uint16 (Z.of_nat (size d)) + 1)]> d.

(** One round of the loop [for name, handler := range s.Handlers]. *)
Definition register_one (sname : string) (R : Registry)
           (entry : string * Handler) : Registry :=
  MkRegistry
    (MkHandlerService (services (r_h R))
                      (<[fullName sname entry.1 := entry.2]> (handlers (r_h R)))
                      (chLocalProcess (r_h R)) (chCloseSession (r_h R)))
    (set_dict (r_pkg R) (assign_alias sname (dict (env (r_pkg R))) entry.1)).

(** The names of a Go map in the order [range] visits them: the runtime
    chooses it, every key is visited once. *)
Definition range_order (m : gmap string Handler) (order : list string) : Prop :=
  NoDup order ∧ ∀ k, k ∈ order ↔ is_Some (m !! k).

(** The entries of [m] in the order [order]. *)
Definition range_entries (m : gmap string Handler) (order : list string)
  : list (string * Handler) :=
  omap (fun k => (fun v => (k, v)) <$> m !! k) order.

(** [register], with the order in which [range] visits [s.Handlers]. *)
Definition register (R : Registry) (comp : Component) (order : list string)
  : Registry * option string :=
  let sname := comp_Name comp in
  match services (r_h R) !! sname with
  | Some _ => (R, Some ("handler: service already defined: " +:+ sname))
  | None =>
      match comp_Extract comp with
      | Err e => (R, Some e)
      | Ok hs =>
          let s := MkService sname hs in
          let R1 := MkRegistry
                      (MkHandlerService (<[sname := s]> (services (r_h R)))
                                        (handlers (r_h R))
                                        (chLocalProcess (r_h R)) (chCloseSession (r_h R)))
                      (r_pkg R) in
          let R2 := foldl (register_one sname) R1 (range_entries hs order) in
          (MkRegistry (r_h R2)
                      (message_SetDictionary (r_pkg R2) (dict (env (r_pkg R2)))),
           None)
      end
  end.

(** [DumpServices], with the order in which [range] visits [h.handlers]. *)
Definition DumpServices (h : handlerService) (order : list string)
  : list LogEntry :=
  LogRegistered <$> order.

(** ** A small configuration, on which the definitions are run *)

Module Sample.

Definition conn0 : Conn := MkConn "10.0.0.7:4242" None [] false.

Definition conn_broken : Conn := MkConn "10.0.0.7:4242" (Some "broken pipe") [] false.

Definition sess0 : Session := MkSession 1 0 false 0.

Definition agent0 : agent := newAgent 1%N conn0 sess0 100.

Definition joinHandler : Handler := MkHandler 10 20 30 false.

Definition rawHandler : Handler := MkHandler 10 21 0 true.

Definition h0 : handlerService :=
  MkHandlerService ∅ (<["room.join" := joinHandler]> (<["room.raw" := rawHandler]> ∅))
                   (make_chan packetBacklog) (make_chan packetBacklog).

(** One byte selects the message. *)
Definition decode0 (b : bytes) : result message.Message :=
  match Byte.to_N <$> b with
  | [0%N] => Ok (message.MkMessage message.Request 7 "room.join" [])
  | [1%N] => Ok (message.MkMessage message.Notify 0 "room.join" [])
  | [2%N] => Ok (message.MkMessage message.Request 9 "unknown.route" [])
  | [3%N] => Ok (message.MkMessage message.Request 11 "room.join" [Byte.xff])
  | _ => Err "wrong message type"
  end.

(** Every byte of a chunk is one packet. *)
Definition frame0 (b : Byte.byte) : packet.Packet :=
  match Byte.to_N b with
  | 1%N => packet.MkPacket packet.Handshake []
  | 2%N => packet.MkPacket packet.HandshakeAck []
  | 3%N => packet.MkPacket packet.Heartbeat []
  | 4%N => packet.MkPacket packet.Data [Byte.x00]
  | 5%N => packet.MkPacket packet.Data [Byte.x02]
  | _ => packet.MkPacket packet.Other []
  end.

Definition unmarshal0 (ty : N) (b : bytes) : result string :=
  match b with
  | [] => Ok "{}"
  | _ => Err "unexpected end of JSON input"
  end.

(** Method 20 returns [nil], method 21 returns an error, the others
    panic. *)
Definition call0 (method : N) (args : list Arg) : exec (list (option string)) :=
  match method with
  | 20%N => Done [None]
  | 21%N => Done [Some "room is full"]
  | _ => Panic "nil pointer dereference"
  end.

Definition X0 : Externals :=
  MkExternals (fun _ => None) unmarshal0 decode0
              (fun held chunk => Ok (frame0 <$> chunk, held)) call0.

Definition hrd0 : bytes := [Byte.x01; Byte.x00].

Definition hbd0 : bytes := [Byte.x03].

Definition G_noauth : Pkg := MkPkg (MkEnv None false ∅ []) hrd0 hbd0 [] ∅.

Definition G_accept : Pkg :=
  MkPkg (MkEnv (Some (fun _ _ => None)) false ∅ []) hrd0 hbd0 [] ∅.

Definition G_reject : Pkg :=
  MkPkg (MkEnv (Some (fun _ _ => Some "invalid token")) false ∅ []) hrd0 hbd0 [] ∅.

Definition G_pipe_fail : Pkg :=
  MkPkg (MkEnv None false ∅ []) hrd0 hbd0 [fun _ _ => Err "bad checksum"] ∅.

Definition item0 : unhandledMessage :=
  MkUnhandled 1 7 20 [ArgReceiver 10; ArgSrv 1; ArgData (Decoded 30 "{}"); ArgResFunc 1 7].

(** A handler service whose pending-work channel is full. *)
Definition h_full : handlerService :=
  set_chLocalProcess h0 (MkChan (replicate packetBacklog item0) packetBacklog false).

Definition roomHandlers : gmap string Handler :=
  <["Join" := joinHandler]> (<["Leave" := rawHandler]> ∅).

Definition room : Component := MkComponent "room" (Ok roomHandlers).

Definition R0 : Registry := MkRegistry newHandlerService G_noauth.

Definition st0 : RState := MkRState h0 agent0 [].

Definition st_full : RState := MkRState h_full (setStatus agent0 statusWorking) [].

Definition st_working : RState := MkRState h0 (setStatus agent0 statusWorking) [].

(** The state of the dispatch loop with three work items queued for the
    agent at address 1. *)
Definition d0 : DState :=
  MkDState (set_chLocalProcess h0 (MkChan [item0; item0; item0] packetBacklog false))
           (<[1%N := setStatus agent0 statusWorking]> ∅)
           [] ∅ 0 false [].

(** The registry after the component [room] was registered. *)
Definition R_room : Registry := fst (register R0 room ["Join"; "Leave"]).

(** A connection that brings the handshake, the acknowledgement and a
    Request with id 7, and then fails. *)
Definition run_then_closed : RState * loop_exit :=
  handle X0 G_noauth 5 h0 [] 1 conn0 sess0
         [ReadOk [Byte.x01; Byte.x02; Byte.x04]; ReadErr "EOF"].

(** The dispatch loop that finds what this connection left: the handler
    service with the queued item and the agent, closed, in the heap. *)
Definition d_then_closed : DState :=
  MkDState (rs_h (fst run_then_closed))
           (<[1%N := rs_agent (fst run_then_closed)]> ∅)
           [] ∅ 0 false [].

End Sample.

(** ** What the properties observe *)

(** The work item a call of [processMessage] leaves behind: the last one
    of the channel after a completed send, the one the sender holds while
    it waits. *)
Definition produced (st' : RState) (r : msg_result) : option unhandledMessage :=
  match r with
  | MEnqueued => last (ch_buf (chLocalProcess (rs_h st')))
  | MBlocked m => Some m
  | MDropped | MPanic => None
  end.

(** A message fails for a reason of its own: its route is not registered,
    a stage of the inbound pipeline rejects its payload, or the payload
    does not deserialize. *)
Definition message_local_failure (X : Externals) (G : Pkg) (st : RState)
           (msg : message.Message) : Prop :=
  handlers (rs_h st) !! message.m_Route msg = None
  ∨ (∃ h e, handlers (rs_h st) !! message.m_Route msg = Some h
            ∧ run_pipeline (Pipeline_Inbound G) (session (rs_agent st))
                           (message.m_Data msg) = Err e)
  ∨ (∃ h payload e, handlers (rs_h st) !! message.m_Route msg = Some h
            ∧ run_pipeline (Pipeline_Inbound G) (session (rs_agent st))
                           (message.m_Data msg) = Ok payload
            ∧ IsRawArg h = false
            ∧ Unmarshal X (Type_ h) payload = Err e).

(** What the reader goroutine of a connection may do to the state it
    works on, from [st] to [st']: the tables of the handler service, its
    session-close channel, the capacity and the closed flag of the
    pending-work channel, the identity of the agent and of its session
    and the agent's [lastMid] stay; the pending-work buffer and the log
    grow at their end. *)
Definition reader_frame (st st' : RState) : Prop :=
  services (rs_h st') = services (rs_h st)
  ∧ handlers (rs_h st') = handlers (rs_h st)
  ∧ chCloseSession (rs_h st') = chCloseSession (rs_h st)
  ∧ ch_cap (chLocalProcess (rs_h st')) = ch_cap (chLocalProcess (rs_h st))
  ∧ ch_closed (chLocalProcess (rs_h st')) = ch_closed (chLocalProcess (rs_h st))
  ∧ (∃ added, ch_buf (chLocalProcess (rs_h st'))
              = ch_buf (chLocalProcess (rs_h st)) ++ added)
  ∧ (∃ more, rs_log st' = rs_log st ++ more)
  ∧ a_ptr (rs_agent st') = a_ptr (rs_agent st)
  ∧ s_ID (session (rs_agent st')) = s_ID (session (rs_agent st))
  ∧ s_UID (session (rs_agent st')) = s_UID (session (rs_agent st))
  ∧ lastMid (rs_agent st') = lastMid (rs_agent st).

(** A channel holds no more than its capacity. *)
Definition chan_bounded {A : Type} (c : chan A) : Prop :=
  (length (ch_buf c) ≤ ch_cap c)%nat.

(** The aliases of a dictionary are the numbers from 1 to its size, each
    used for one route. *)
Definition aliases_dense (d : gmap string Z) : Prop :=
  (∀ r v, d !! r = Some v → 1 ≤ v ≤ Z.of_nat (size d))
  ∧ (∀ r1 r2 v, d !! r1 = Some v → d !! r2 = Some v → r1 = r2).

(** What the dispatch loop spawns for a work item. *)
Definition spawn_of (m : unhandledMessage) : N * list Arg :=
  (um_handler m, um_args m).

(** The agent of a work item is in the heap and not closed. *)
Definition live (heap : gmap N agent) (m : unhandledMessage) : bool :=
  match heap !! um_agent m with
  | Some a => negb (status a =? statusClosed)
  | None => false
  end.

(** A packet no case of [processPacket] acts on, beyond the time stamp. *)
Definition is_keepalive (p : packet.Packet) : bool :=
  match packet.p_Type p with
  | packet.Heartbeat | packet.Other => true
  | _ => false
  end.

(** A case of the [select] that is about timers. *)
Definition is_timer_case (c : select_case) : bool :=
  match c with
  | CaseCreatedTimer _ _ | CaseClosingTimer _ => true
  | _ => false
  end.

Definition is_die (c : select_case) : bool :=
  match c with
  | CaseDie => true
  | _ => false
  end.

(** A case of the [select] that writes the entry [id] of the timer
    table. *)
Definition touches_timer (id : Z) (c : select_case) : bool :=
  match c with
  | CaseCreatedTimer i _ | CaseClosingTimer i => i =? id
  | _ => false
  end.

(** * Properties *)

(** ** Small facts about the state and the channels *)

Lemma conn_Write_ok (c : Conn) (b : bytes) :
  write_err c = None →
  conn_Write c b = (MkConn (RemoteAddr c) None (written c ++ [b]) (conn_closed c), None).
Proof. intros H. unfold conn_Write. now rewrite H. Qed.

Lemma conn_Write_fails (c : Conn) (b : bytes) (e : string) :
  write_err c = Some e → conn_Write c b = (c, Some e).
Proof. intros H. unfold conn_Write. now rewrite H. Qed.

Lemma processPackets_app (X : Externals) (G : Pkg) (now : Z)
      (pre rest : list packet.Packet) (st st1 : RState) :
  processPackets X G now st pre = (st1, PReturn None) →
  processPackets X G now st (pre ++ rest) = processPackets X G now st1 rest.
Proof.
  revert st. induction pre as [|p pre IH]; intros st H; simpl in *.
  - now inversion H.
  - destruct (processPacket X G now st p) as [st' [[e|]| m |]]; try discriminate.
    now apply IH.
Qed.

Section Reader.

Variables (X : Externals) (G : Pkg) (now : Z).

(** X1: the branch of [processPacket] that the authentication callback
    accepted: the frame is written once, the session is authenticated,
    the agent waits for the acknowledgement. *)
Lemma handshake_auth_accepted (st : RState) (p : packet.Packet)
      (auth : Session → option HandShakeData → option string) :
  packet.p_Type p = packet.Handshake →
  authFunc (env G) = Some auth →
  auth (session (rs_agent st)) (Unmarshal_HandShakeData X (packet.p_Data p)) = None →
  write_err (conn (rs_agent st)) = None →
  ∃ st', processPacket X G now st p = (st', PReturn None)
         ∧ written (conn (rs_agent st')) = written (conn (rs_agent st)) ++ [hrd G]
         ∧ Auth (session (rs_agent st')) = true
         ∧ status (rs_agent st') = statusHandshake.
Proof.
  intros Hp Ha Hok Hw. unfold processPacket.
  rewrite Hp, Ha, Hok, (conn_Write_ok _ _ Hw).
  eexists; split; [reflexivity|].
  unfold debugln; destruct (debug (env G)); simpl; auto.
Qed.

(** C1 (the code at the input where it departs from the claim): with no
    authentication callback configured and a connection whose write
    succeeds, a Handshake packet makes [processPacket] write the
    handshake response exactly once and return [nil], but the session's
    authenticated flag and the agent's status stay as they were; the
    status does not become Handshake-Ack-Pending. *)
Theorem handshake_without_auth (st : RState) (p : packet.Packet) :
  packet.p_Type p = packet.Handshake →
  authFunc (env G) = None →
  write_err (conn (rs_agent st)) = None →
  ∃ st', processPacket X G now st p = (st', PReturn None)
         ∧ written (conn (rs_agent st')) = written (conn (rs_agent st)) ++ [hrd G]
         ∧ Auth (session (rs_agent st')) = Auth (session (rs_agent st))
         ∧ status (rs_agent st') = status (rs_agent st).
Proof.
  intros Hp Ha Hw. unfold processPacket.
  rewrite Hp, Ha, (conn_Write_ok _ _ Hw).
  eexists; split; [reflexivity|]. simpl; auto.
Qed.

End Reader.

Lemma handshake_without_auth_witness :
  ∃ st', processPacket Sample.X0 Sample.G_noauth 5 Sample.st0
                       (packet.MkPacket packet.Handshake []) = (st', PReturn None)
         ∧ written (conn (rs_agent st')) = [] ++ [Sample.hrd0]
         ∧ Auth (session (rs_agent st')) = false
         ∧ status (rs_agent st') = statusStart.
Proof.
  apply (handshake_without_auth Sample.X0 Sample.G_noauth 5 Sample.st0
           (packet.MkPacket packet.Handshake [])); reflexivity.
Defined.

(** ** The protocol state machine *)

Section Protocol.

Variables (X : Externals) (G : Pkg) (now : Z).

Lemma readLoop_packet_error (st st2 : RState) (chunk held : bytes)
      (packets : list packet.Packet) (reads : list read_result) (e : string) :
  conn_closed (conn (rs_agent st)) = false →
  decoder_Decode X (decoder (rs_agent st)) chunk = Ok (packets, held) →
  processPackets X G now (with_agent st (set_decoder (rs_agent st) held)) packets
    = (st2, PReturn (Some e)) →
  readLoop X G now (ReadOk chunk :: reads) st = (println (LogError e) st2, Returned).
Proof.
  intros Hc Hd Hp. simpl. now rewrite Hc, Hd, Hp.
Qed.

Lemma debugln_agent (e : LogEntry) (st : RState) :
  rs_agent (debugln G e st) = rs_agent st.
Proof. unfold debugln. destruct (debug (env G)); reflexivity. Qed.

Lemma debugln_h (e : LogEntry) (st : RState) :
  rs_h (debugln G e st) = rs_h st.
Proof. unfold debugln. destruct (debug (env G)); reflexivity. Qed.

Lemma handle_deferred_closes (st : RState) :
  status (rs_agent (handle_deferred G st)) = statusClosed
  ∧ conn_closed (conn (rs_agent (handle_deferred G st))) = true
  ∧ rs_h (handle_deferred G st) = rs_h st.
Proof.
  unfold handle_deferred, debugln. destruct (debug (env G)); simpl; auto.
Qed.

(** A loop that waits for the next read has gone through all the reads
    it was given, on a connection that is still open: it goes on with
    the reads that come after them. *)
Lemma readLoop_waiting (reads : list read_result) (st st1 : RState) :
  readLoop X G now reads st = (st1, WaitingRead) →
  conn_closed (conn (rs_agent st1)) = false
  ∧ ∀ rest, readLoop X G now (reads ++ rest) st = readLoop X G now rest st1.
Proof.
  revert st. induction reads as [|rd reads IH]; intros st H; simpl in H.
  - destruct (conn_closed (conn (rs_agent st))) eqn:Hc; inversion H; subst.
    split; [exact Hc | reflexivity].
  - destruct (conn_closed (conn (rs_agent st))) eqn:Hc; [discriminate|].
    destruct rd as [e|chunk]; [discriminate|].
    destruct (decoder_Decode X (decoder (rs_agent st)) chunk) as [[packets held]|e] eqn:Hd;
      [|discriminate].
    destruct (processPackets X G now _ packets) as [s2 [[e|]|m|]] eqn:Hps;
      try discriminate.
    destruct (IH s2 H) as (Hopen & Happ). split; [exact Hopen|].
    intros rest. simpl. rewrite Hc, Hd, Hps. apply Happ.
Qed.

(** C2: a Data packet that finds the agent below Working makes
    [processPacket] return an error and change nothing (no message is
    decoded, nothing is logged or enqueued); the packets after it in the
    batch are not processed and the read loop returns. So does [handle]:
    whatever reads were served before the one that brings the packet and
    whatever reads would follow, [handle] ends with the loop returned,
    the agent closed and its connection closed by the deferred function,
    and the pending-work channel as it was before the packet. *)
Theorem data_before_working_closes (st : RState) (p : packet.Packet) :
  packet.p_Type p = packet.Data →
  status (rs_agent st) < statusWorking →
  ∃ e,
    processPacket X G now st p = (st, PReturn (Some e))
    ∧ (∀ post, processPackets X G now st (p :: post) = (st, PReturn (Some e)))
    ∧ (∀ st0 chunk held pre post reads,
          conn_closed (conn (rs_agent st0)) = false →
          decoder_Decode X (decoder (rs_agent st0)) chunk = Ok (pre ++ p :: post, held) →
          processPackets X G now (with_agent st0 (set_decoder (rs_agent st0) held)) pre
            = (st, PReturn None) →
          readLoop X G now (ReadOk chunk :: reads) st0 = (println (LogError e) st, Returned))
    ∧ (∀ h log ptr c s reads1 st0 chunk held pre post reads2,
          readLoop X G now reads1
                   (debugln G (LogNewSession ptr) (MkRState h (newAgent ptr c s now) log))
            = (st0, WaitingRead) →
          decoder_Decode X (decoder (rs_agent st0)) chunk = Ok (pre ++ p :: post, held) →
          processPackets X G now (with_agent st0 (set_decoder (rs_agent st0) held)) pre
            = (st, PReturn None) →
          snd (handle X G now h log ptr c s (reads1 ++ ReadOk chunk :: reads2)) = Returned
          ∧ status (rs_agent (fst (handle X G now h log ptr c s
                                      (reads1 ++ ReadOk chunk :: reads2)))) = statusClosed
          ∧ conn_closed (conn (rs_agent (fst (handle X G now h log ptr c s
                                                 (reads1 ++ ReadOk chunk :: reads2))))) = true
          ∧ chLocalProcess (rs_h (fst (handle X G now h log ptr c s
                                         (reads1 ++ ReadOk chunk :: reads2))))
            = chLocalProcess (rs_h st)
          ∧ last (rs_log (fst (handle X G now h log ptr c s
                                 (reads1 ++ ReadOk chunk :: reads2))))
            = Some (if debug (env G)
                    then LogReadExit (s_ID (session (rs_agent st)))
                                     (s_UID (session (rs_agent st)))
                    else LogError e)).
Proof.
  intros Hp Hs.
  assert (Hb : (status (rs_agent st) <? statusWorking) = true) by (apply Z.ltb_lt; exact Hs).
  set (e := "receive data on socket which not yet ACK, session will be closed immediately, remote="
            +:+ RemoteAddr (conn (rs_agent st))).
  assert (Hpp : processPacket X G now st p = (st, PReturn (Some e))).
  { unfold processPacket. now rewrite Hp, Hb. }
  assert (Hloop : ∀ st0 chunk held pre post reads,
            conn_closed (conn (rs_agent st0)) = false →
            decoder_Decode X (decoder (rs_agent st0)) chunk = Ok (pre ++ p :: post, held) →
            processPackets X G now (with_agent st0 (set_decoder (rs_agent st0) held)) pre
              = (st, PReturn None) →
            readLoop X G now (ReadOk chunk :: reads) st0 = (println (LogError e) st, Returned)).
  { intros st0 chunk held pre post reads Hc Hd Hpre.
    apply (readLoop_packet_error st0 st chunk held (pre ++ p :: post) reads e Hc Hd).
    rewrite (processPackets_app X G now pre (p :: post) _ st Hpre).
    simpl. now rewrite Hpp. }
  exists e. split; [exact Hpp|]. split; [|split].
  - intros post. simpl. now rewrite Hpp.
  - exact Hloop.
  - intros h log ptr c s reads1 st0 chunk held pre post reads2 Hwait Hd Hpre.
    destruct (readLoop_waiting reads1 _ st0 Hwait) as (Hopen & Happ).
    unfold handle. rewrite Happ.
    rewrite (Hloop st0 chunk held pre post reads2 Hopen Hd Hpre).
    simpl. unfold handle_deferred, debugln.
    destruct (debug (env G)); simpl; rewrite ?last_snoc; auto 10.
Qed.

(** C10: whatever the status of the agent, a HandshakeAck packet sets it
    to Working and [processPacket] returns [nil]; a Data packet that
    follows passes the status check: when its message decodes, it is
    handed to [processMessage]. *)
Theorem handshake_ack_sets_working (st : RState) (p : packet.Packet) :
  packet.p_Type p = packet.HandshakeAck →
  ∃ st',
    processPacket X G now st p = (st', PReturn None)
    ∧ status (rs_agent st') = statusWorking
    ∧ (∀ now' q msg,
          packet.p_Type q = packet.Data →
          message_Decode X (packet.p_Data q) = Ok msg →
          processPacket X G now' st' q
          = after_message now' (processMessage X G now' st' msg)).
Proof.
  intros Hp. unfold processPacket at 1. rewrite Hp.
  eexists; split; [reflexivity|].
  match goal with
  | |- status (rs_agent ?s) = _ ∧ _ =>
      assert (Hs : status (rs_agent s) = statusWorking)
        by (simpl; rewrite debugln_agent; reflexivity)
  end.
  split; [exact Hs|].
  intros now' q msg Hq Hd. unfold processPacket. rewrite Hq, Hs, Hd.
  reflexivity.
Qed.

End Protocol.

Lemma data_before_working_closes_witness :
  snd (handle Sample.X0 Sample.G_noauth 5 Sample.h0 [] 1 Sample.conn0 Sample.sess0
              ([] ++ ReadOk [Byte.x01; Byte.x04; Byte.x02] :: [ReadOk [Byte.x04]]))
  = Returned
  ∧ status (rs_agent (fst (handle Sample.X0 Sample.G_noauth 5 Sample.h0 [] 1
                             Sample.conn0 Sample.sess0
                             ([] ++ ReadOk [Byte.x01; Byte.x04; Byte.x02]
                                 :: [ReadOk [Byte.x04]]))))
    = statusClosed
  ∧ conn_closed (conn (rs_agent (fst (handle Sample.X0 Sample.G_noauth 5 Sample.h0 [] 1
                                        Sample.conn0 Sample.sess0
                                        ([] ++ ReadOk [Byte.x01; Byte.x04; Byte.x02]
                                            :: [ReadOk [Byte.x04]])))))
    = true.
Proof.
  destruct (data_before_working_closes Sample.X0 Sample.G_noauth 5
              (fst (processPacket Sample.X0 Sample.G_noauth 5
                      (MkRState Sample.h0 (newAgent 1 Sample.conn0 Sample.sess0 5) [])
                      (packet.MkPacket packet.Handshake [])))
              (packet.MkPacket packet.Data [Byte.x00]))
    as (e & _ & _ & _ & H).
  - reflexivity.
  - vm_compute. reflexivity.
  - destruct (H Sample.h0 [] 1%N Sample.conn0 Sample.sess0 []
                (MkRState Sample.h0 (newAgent 1 Sample.conn0 Sample.sess0 5) [])
                [Byte.x01; Byte.x04; Byte.x02] []
                [packet.MkPacket packet.Handshake []]
                [packet.MkPacket packet.HandshakeAck []]
                [ReadOk [Byte.x04]])
      as (H1 & H2 & H3 & _).
    + vm_compute. reflexivity.
    + vm_compute. reflexivity.
    + vm_compute. reflexivity.
    + split; [exact H1|]. split; [exact H2 | exact H3].
Defined.

Lemma handshake_ack_sets_working_witness :
  ∃ st', processPacket Sample.X0 Sample.G_noauth 5 Sample.st0
                       (packet.MkPacket packet.HandshakeAck []) = (st', PReturn None)
         ∧ status (rs_agent st') = statusWorking.
Proof.
  destruct (handshake_ack_sets_working Sample.X0 Sample.G_noauth 5 Sample.st0
              (packet.MkPacket packet.HandshakeAck [])) as (st' & H1 & H2 & _).
  - reflexivity.
  - exists st'. split; assumption.
Defined.

(** ** Authentication rejected *)

Section Rejection.

Variables (X : Externals) (G : Pkg) (now : Z).

Lemma readLoop_closed (st : RState) (reads : list read_result) :
  conn_closed (conn (rs_agent st)) = true →
  readLoop X G now reads st
  = (println (LogReadError "use of closed network connection") st, Returned).
Proof.
  intros Hc. destruct reads; simpl; now rewrite Hc.
Qed.

(** C7: when the authentication callback answers a Handshake packet with
    an error payload, the agent is kicked with that payload, the status
    and the authenticated flag are left as they were, nothing is written
    to the connection, and the connection is closed: the next read of the
    loop fails and the loop returns. *)
Theorem handshake_auth_rejected (st : RState) (p : packet.Packet)
        (auth : Session → option HandShakeData → option string) (errMsg : string) :
  packet.p_Type p = packet.Handshake →
  authFunc (env G) = Some auth →
  auth (session (rs_agent st)) (Unmarshal_HandShakeData X (packet.p_Data p)) = Some errMsg →
  ∃ st',
    processPacket X G now st p = (st', PReturn None)
    ∧ kicked (rs_agent st') = Some errMsg
    ∧ status (rs_agent st') = status (rs_agent st)
    ∧ Auth (session (rs_agent st')) = Auth (session (rs_agent st))
    ∧ written (conn (rs_agent st')) = written (conn (rs_agent st))
    ∧ conn_closed (conn (rs_agent st')) = true
    ∧ rs_h st' = rs_h st
    ∧ (∀ reads, snd (readLoop X G now reads st') = Returned).
Proof.
  intros Hp Ha Hrej. unfold processPacket. rewrite Hp, Ha, Hrej.
  eexists; split; [reflexivity|]. simpl.
  repeat (split; [reflexivity|]).
  intros reads. now rewrite readLoop_closed.
Qed.

End Rejection.

Lemma handshake_auth_rejected_witness :
  ∃ st', processPacket Sample.X0 Sample.G_reject 5 Sample.st0
                       (packet.MkPacket packet.Handshake []) = (st', PReturn None)
         ∧ kicked (rs_agent st') = Some "invalid token"
         ∧ status (rs_agent st') = statusStart
         ∧ written (conn (rs_agent st')) = []
         ∧ conn_closed (conn (rs_agent st')) = true.
Proof.
  destruct (handshake_auth_rejected Sample.X0 Sample.G_reject 5 Sample.st0
              (packet.MkPacket packet.Handshake []) (fun _ _ => Some "invalid token")
              "invalid token") as (st' & H1 & H2 & H3 & _ & H5 & H6 & _).
  - reflexivity.
  - reflexivity.
  - reflexivity.
  - exists st'. repeat split; assumption.
Defined.

(** ** The message router *)

Section Router.

Variables (X : Externals) (G : Pkg) (now : Z).

(** C6: a message whose route is not registered, whose payload a stage of
    the inbound pipeline rejects, or whose payload does not deserialize,
    is logged and dropped: [processMessage] returns with one more log
    entry and nothing else changed, and [processPacket] returns [nil] for
    the Data packet that carried it, so that the handler service, the
    connection, the session and the status are as before and the loop
    goes on with the packets that follow. *)
Theorem message_local_failure_drops (st : RState) (msg : message.Message) :
  message_local_failure X G st msg →
  ∃ entry,
    processMessage X G now st msg = (println entry st, MDropped)
    ∧ (∀ p rest,
          packet.p_Type p = packet.Data →
          statusWorking ≤ status (rs_agent st) →
          message_Decode X (packet.p_Data p) = Ok msg →
          ∃ st',
            processPacket X G now st p = (st', PReturn None)
            ∧ rs_h st' = rs_h st
            ∧ conn (rs_agent st') = conn (rs_agent st)
            ∧ session (rs_agent st') = session (rs_agent st)
            ∧ status (rs_agent st') = status (rs_agent st)
            ∧ rs_log st' = rs_log st ++ [entry]
            ∧ processPackets X G now st (p :: rest) = processPackets X G now st' rest).
Proof.
  intros Hfail.
  assert (Hm : ∃ entry, processMessage X G now st msg = (println entry st, MDropped)).
  { unfold processMessage.
    destruct Hfail as [Hnone | [(h & e & Hh & Hpipe) | (h & payload & e & Hh & Hpipe & Hraw & Hun)]].
    - rewrite Hnone. eauto.
    - rewrite Hh, Hpipe. eauto.
    - rewrite Hh, Hpipe, Hraw, Hun. eauto. }
  destruct Hm as (entry & Hm). exists entry. split; [exact Hm|].
  intros p rest Hp Hs Hd.
  assert (Hb : (status (rs_agent st) <? statusWorking) = false) by (apply Z.ltb_ge; exact Hs).
  assert (Hpp : processPacket X G now st p
                = (with_agent (println entry st) (set_lastAt (rs_agent (println entry st)) now),
                   PReturn None)).
  { unfold processPacket. rewrite Hp, Hb, Hd, Hm. reflexivity. }
  eexists. split; [exact Hpp|]. simpl.
  repeat (split; [reflexivity|]).
  now rewrite Hpp.
Qed.

Lemma last_snoc_item (l : list unhandledMessage) (m : unhandledMessage) :
  last (l ++ [m]) = Some m.
Proof. apply last_snoc. Qed.

(** What [processMessage] sends, spelled out. *)
Lemma processMessage_item (st st' : RState) (msg : message.Message)
      (r : msg_result) (m : unhandledMessage) :
  processMessage X G now st msg = (st', r) →
  produced st' r = Some m →
  ∃ handler data,
    handlers (rs_h st) !! message.m_Route msg = Some handler
    ∧ m = MkUnhandled (a_ptr (rs_agent st))
            (match message.m_Type msg with
             | message.Request => message.m_ID msg
             | _ => 0
             end)
            (Method handler)
            ([ArgReceiver (Receiver handler); ArgSrv (a_ptr (rs_agent st)); ArgData data]
               ++ (if message.Kind_eqb (message.m_Type msg) message.Request
                   then [ArgResFunc (a_ptr (rs_agent st)) (message.m_ID msg)]
                   else [])).
Proof.
  unfold processMessage.
  destruct (handlers (rs_h st) !! message.m_Route msg) as [handler|];
    [|intros H; inversion H; subst; discriminate].
  destruct (run_pipeline _ _ _) as [payload|e];
    [|intros H; inversion H; subst; discriminate].
  set (decoded := if IsRawArg handler then _ else _).
  destruct decoded as [data|e]; [|intros H; inversion H; subst; discriminate].
  set (item := MkUnhandled _ _ _ _).
  assert (Hitem : item = MkUnhandled (a_ptr (rs_agent st))
            (match message.m_Type msg with
             | message.Request => message.m_ID msg
             | _ => 0
             end)
            (Method handler)
            ([ArgReceiver (Receiver handler); ArgSrv (a_ptr (rs_agent st)); ArgData data]
               ++ (if message.Kind_eqb (message.m_Type msg) message.Request
                   then [ArgResFunc (a_ptr (rs_agent st)) (message.m_ID msg)]
                   else []))).
  { subst item. destruct (message.m_Type msg); reflexivity. }
  clearbody item.
  unfold chan_send.
  destruct (ch_closed _); [intros H; inversion H; subst; discriminate|].
  destruct (_ <? _)%nat.
  - intros H; inversion H; subst st' r. simpl. rewrite last_snoc_item.
    intros Hm; inversion Hm. exists handler, data. split; [reflexivity | rewrite <- H1, Hitem; reflexivity].
  - intros H; inversion H; subst st' r. simpl.
    intros Hm; inversion Hm. exists handler, data. split; [reflexivity | rewrite <- H1, Hitem; reflexivity].
Qed.

End Router.

Lemma message_local_failure_drops_witness :
  ∃ entry,
    processMessage Sample.X0 Sample.G_noauth 5 Sample.st_working
                   (message.MkMessage message.Request 9 "unknown.route" [])
    = (println entry Sample.st_working, MDropped).
Proof.
  destruct (message_local_failure_drops Sample.X0 Sample.G_noauth 5 Sample.st_working
              (message.MkMessage message.Request 9 "unknown.route" []))
    as (entry & H & _).
  - left. reflexivity.
  - exists entry. exact H.
Defined.

Section WorkItems.

Variables (X : Externals) (G : Pkg) (now : Z).

(** C3 (amended): the work item [processMessage] produces for a Notify
    message has the three arguments receiver, agent and payload and no
    response function; the one it produces for a Request message has
    these three and, appended, exactly one response function, bound to
    the id of the message (nonzero when the message's id is), which is
    also the item's [lastMid]. When the dispatch loop takes the item from
    the channel and the agent is not closed, it stamps that id on the
    agent and spawns the handler with these arguments; when the agent is
    closed by then, nothing is stamped and nothing is spawned. *)
Theorem response_function_only_for_requests
        (st st' : RState) (msg : message.Message) (r : msg_result)
        (m : unhandledMessage) :
  processMessage X G now st msg = (st', r) →
  produced st' r = Some m →
  ∃ recv data,
    (message.m_Type msg = message.Notify →
       um_args m = [ArgReceiver recv; ArgSrv (a_ptr (rs_agent st)); ArgData data]
       ∧ List.filter is_ResFunc (um_args m) = []
       ∧ um_lastMid m = 0)
    ∧ (message.m_Type msg = message.Request →
       um_args m = [ArgReceiver recv; ArgSrv (a_ptr (rs_agent st)); ArgData data;
                    ArgResFunc (a_ptr (rs_agent st)) (message.m_ID msg)]
       ∧ List.filter is_ResFunc (um_args m)
         = [ArgResFunc (a_ptr (rs_agent st)) (message.m_ID msg)]
       ∧ um_lastMid m = message.m_ID msg
       ∧ (message.m_ID msg ≠ 0 → um_lastMid m ≠ 0)
       ∧ (∀ G' d ch a,
             chan_recv (chLocalProcess (d_h d)) = Some (m, ch) →
             d_heap d !! um_agent m = Some a →
             status a ≠ statusClosed →
             lastMid <$> (d_heap (dispatch_step G' d CaseLocalProcess) !! um_agent m)
             = Some (message.m_ID msg)
             ∧ d_spawned (dispatch_step G' d CaseLocalProcess)
               = d_spawned d ++ [(um_handler m, um_args m)])
       ∧ (∀ G' d ch a,
             chan_recv (chLocalProcess (d_h d)) = Some (m, ch) →
             d_heap d !! um_agent m = Some a →
             status a = statusClosed →
             d_heap (dispatch_step G' d CaseLocalProcess) = d_heap d
             ∧ d_spawned (dispatch_step G' d CaseLocalProcess) = d_spawned d
             ∧ chLocalProcess (d_h (dispatch_step G' d CaseLocalProcess)) = ch)).
Proof.
  intros Hpm Hprod.
  destruct (processMessage_item X G now st st' msg r m Hpm Hprod)
    as (handler & data & _ & Hm).
  exists (Receiver handler), data. split.
  - intros Hty. rewrite Hty in Hm. subst m. simpl. auto.
  - intros Hty. rewrite Hty in Hm. simpl in Hm.
    assert (Hargs : um_args m = [ArgReceiver (Receiver handler); ArgSrv (a_ptr (rs_agent st));
                                  ArgData data;
                                  ArgResFunc (a_ptr (rs_agent st)) (message.m_ID msg)])
      by (subst m; reflexivity).
    assert (Hmid : um_lastMid m = message.m_ID msg) by (subst m; reflexivity).
    split; [exact Hargs|]. split; [rewrite Hargs; reflexivity|].
    split; [exact Hmid|]. split; [now rewrite Hmid|]. split.
    + intros G' d ch a Hrecv Hheap Hopen.
      unfold dispatch_step. rewrite Hrecv, Hheap.
      assert (Hb : (status a =? statusClosed) = false) by (apply Z.eqb_neq; exact Hopen).
      rewrite Hb. simpl. rewrite lookup_insert_eq. simpl. rewrite Hmid. auto.
    + intros G' d ch a Hrecv Hheap Hclosed.
      unfold dispatch_step. rewrite Hrecv, Hheap.
      assert (Hb : (status a =? statusClosed) = true) by (apply Z.eqb_eq; exact Hclosed).
      rewrite Hb. simpl. auto.
Qed.

(** [processMessage] either drops the message for a reason of its own,
    or reaches the send on the pending-work channel with an item. *)
Lemma processMessage_reaches_send (st : RState) (msg : message.Message) :
  (message_local_failure X G st msg
   ∧ ∃ entry, processMessage X G now st msg = (println entry st, MDropped))
  ∨ (∃ item st2,
        rs_h st2 = rs_h st
        ∧ processMessage X G now st msg
          = match chan_send (chLocalProcess (rs_h st)) item with
            | Sent c => (with_h st2 (set_chLocalProcess (rs_h st2) c), MEnqueued)
            | WouldBlock => (st2, MBlocked item)
            | SendOnClosed => (st2, MPanic)
            end).
Proof.
  unfold processMessage.
  destruct (handlers (rs_h st) !! message.m_Route msg) as [handler|] eqn:Hh.
  2:{ left. split; [left; exact Hh | eauto]. }
  destruct (run_pipeline _ _ _) as [payload|e] eqn:Hpipe.
  2:{ left. split; [right; left; eauto | eauto]. }
  destruct (IsRawArg handler) eqn:Hraw.
  - right. unfold debugln.
    destruct (debug (env G)); do 2 eexists; (split; [|reflexivity]); reflexivity.
  - destruct (Unmarshal X (Type_ handler) payload) as [v|e] eqn:Hun.
    + right. unfold debugln.
      destruct (debug (env G)); do 2 eexists; (split; [|reflexivity]); reflexivity.
    + left. split; [|eauto]. right; right. exists handler, payload, e. auto.
Qed.

(** A sender that waited on a full channel completes its send as soon as
    one item has been received. *)
Lemma chan_send_after_recv {A : Type} (c ch : chan A) (x m : A) :
  chan_send c m = WouldBlock →
  (length (ch_buf c) ≤ ch_cap c)%nat →
  chan_recv c = Some (x, ch) →
  chan_send ch m = Sent (MkChan (tail (ch_buf c) ++ [m]) (ch_cap c) false).
Proof.
  unfold chan_send, chan_recv.
  destruct (ch_closed c) eqn:Hcl; [discriminate|].
  destruct (_ <? _)%nat; [discriminate|]. intros _ Hinv.
  destruct (ch_buf c) as [|y rest]; [discriminate|].
  intros H; inversion H; subst. simpl in *. rewrite ?Hcl.
  assert (Hr : (length rest <? ch_cap c)%nat = true) by (apply Nat.ltb_lt; lia).
  now rewrite Hr.
Qed.

(** C8: the pending-work channel is created with capacity 1024
    ([packetBacklog]) and [processMessage] never changes the capacity nor
    overfills the buffer. The send at the end of [processMessage] appends
    the work item to the buffer when there is room; when the buffer is
    full the sender waits, holding that very item, the buffer is
    untouched, and the send completes with the item at the end of the
    buffer once the dispatch loop has taken an item out. A message is
    dropped only for a reason of its own, never because the channel is
    full. *)
Theorem enqueue_blocks_when_full
        (st st' : RState) (msg : message.Message) (r : msg_result) :
  processMessage X G now st msg = (st', r) →
  packetBacklog = 1024%nat
  ∧ ch_cap (chLocalProcess newHandlerService) = 1024%nat
  ∧ ch_cap (chLocalProcess (rs_h st')) = ch_cap (chLocalProcess (rs_h st))
  ∧ ((length (ch_buf (chLocalProcess (rs_h st))) ≤ ch_cap (chLocalProcess (rs_h st)))%nat →
     (length (ch_buf (chLocalProcess (rs_h st'))) ≤ ch_cap (chLocalProcess (rs_h st')))%nat)
  ∧ match r with
    | MEnqueued =>
        (length (ch_buf (chLocalProcess (rs_h st))) < ch_cap (chLocalProcess (rs_h st)))%nat
        ∧ ∃ m, ch_buf (chLocalProcess (rs_h st')) = ch_buf (chLocalProcess (rs_h st)) ++ [m]
    | MBlocked m =>
        (ch_cap (chLocalProcess (rs_h st)) ≤ length (ch_buf (chLocalProcess (rs_h st))))%nat
        ∧ ch_buf (chLocalProcess (rs_h st')) = ch_buf (chLocalProcess (rs_h st))
        ∧ (∀ x ch,
              (length (ch_buf (chLocalProcess (rs_h st))) ≤ ch_cap (chLocalProcess (rs_h st)))%nat →
              chan_recv (chLocalProcess (rs_h st')) = Some (x, ch) →
              ∃ ch2, chan_send ch m = Sent ch2
                     ∧ ch_buf ch2 = tail (ch_buf (chLocalProcess (rs_h st))) ++ [m])
    | MDropped =>
        ch_buf (chLocalProcess (rs_h st')) = ch_buf (chLocalProcess (rs_h st))
        ∧ message_local_failure X G st msg
    | MPanic =>
        ch_buf (chLocalProcess (rs_h st')) = ch_buf (chLocalProcess (rs_h st))
        ∧ ch_closed (chLocalProcess (rs_h st)) = true
    end.
Proof.
  intros Hpm. split; [reflexivity|]. split; [reflexivity|].
  destruct (processMessage_reaches_send st msg)
    as [(Hfail & entry & Hdrop) | (item & st2 & Hh & Hsend)].
  - rewrite Hdrop in Hpm. inversion Hpm; subst. simpl. auto.
  - rewrite Hsend in Hpm. clear Hsend.
    destruct (chan_send (chLocalProcess (rs_h st)) item) as [c| |] eqn:Hcs;
      inversion Hpm; subst st' r; clear Hpm; simpl; rewrite ?Hh.
    + unfold chan_send in Hcs.
      destruct (ch_closed _); [discriminate|].
      destruct (_ <? _)%nat eqn:Hlt; [|discriminate].
      apply Nat.ltb_lt in Hlt. inversion Hcs; subst c; simpl.
      split; [reflexivity|]. split; [rewrite length_app; simpl; lia|].
      split; [exact Hlt | eauto].
    + split; [reflexivity|]. split; [auto|]. split.
      * unfold chan_send in Hcs.
        destruct (ch_closed _); [discriminate|].
        destruct (_ <? _)%nat eqn:Hlt; [discriminate|].
        now apply Nat.ltb_ge in Hlt.
      * split; [reflexivity|]. intros x ch Hinv Hrecv.
        eexists. split; [apply (chan_send_after_recv _ _ x _ Hcs Hinv Hrecv)|reflexivity].
    + split; [reflexivity|]. split; [auto|]. split; [reflexivity|].
      unfold chan_send in Hcs.
      destruct (ch_closed _); [reflexivity|].
      destruct (_ <? _)%nat; discriminate.
Qed.

End WorkItems.

Lemma response_function_only_for_requests_witness :
  ∃ recv data,
    um_args Sample.item0 = [ArgReceiver recv; ArgSrv 1; ArgData data; ArgResFunc 1 7]
    ∧ um_lastMid Sample.item0 = 7.
Proof.
  destruct (response_function_only_for_requests Sample.X0 Sample.G_noauth 5
              Sample.st_working
              (fst (processMessage Sample.X0 Sample.G_noauth 5 Sample.st_working
                      (message.MkMessage message.Request 7 "room.join" [])))
              (message.MkMessage message.Request 7 "room.join" [])
              MEnqueued Sample.item0)
    as (recv & data & _ & Hreq).
  - vm_compute. reflexivity.
  - vm_compute. reflexivity.
  - exists recv, data. destruct (Hreq eq_refl) as (H1 & _ & H3 & _). split; assumption.
Defined.

(** C3 (as stated, refuted): the id of a Request is not always stamped
    on the agent. A client sends the handshake, the acknowledgement and
    a Request with id 7, and then its connection fails: [handle] has
    enqueued the work item for the request and closed the agent. When
    the dispatch loop takes the item, the agent is closed: its [lastMid]
    stays 0 and no handler is spawned. *)
Lemma request_id_not_stamped_on_closed_agent :
  snd Sample.run_then_closed = Returned
  ∧ ch_buf (chLocalProcess (rs_h (fst Sample.run_then_closed))) = [Sample.item0]
  ∧ um_lastMid Sample.item0 = 7
  ∧ status (rs_agent (fst Sample.run_then_closed)) = statusClosed
  ∧ ch_buf (chLocalProcess
              (d_h (fst (dispatch Sample.G_noauth [CaseLocalProcess] Sample.d_then_closed))))
    = []
  ∧ lastMid <$> (d_heap (fst (dispatch Sample.G_noauth [CaseLocalProcess]
                                Sample.d_then_closed)) !! 1%N)
    = Some 0
  ∧ d_spawned (fst (dispatch Sample.G_noauth [CaseLocalProcess] Sample.d_then_closed)) = [].
Proof. vm_compute. repeat split. Qed.

Lemma enqueue_blocks_when_full_witness :
  snd (processMessage Sample.X0 Sample.G_noauth 5 Sample.st_full
                      (message.MkMessage message.Request 7 "room.join" []))
  = MBlocked Sample.item0
  ∧ (ch_cap (chLocalProcess (rs_h Sample.st_full))
     ≤ length (ch_buf (chLocalProcess (rs_h Sample.st_full))))%nat.
Proof.
  destruct (enqueue_blocks_when_full Sample.X0 Sample.G_noauth 5 Sample.st_full
              (MkRState Sample.h_full
                        (set_session (setStatus Sample.agent0 statusWorking)
                                     (set_LastHandlerAccessTime Sample.sess0 5)) [])
              (message.MkMessage message.Request 7 "room.join" [])
              (MBlocked Sample.item0))
    as (_ & _ & _ & _ & Hfull & _).
  - vm_compute. reflexivity.
  - split; [vm_compute; reflexivity | exact Hfull].
Defined.

(** ** The protected call *)

(** C9: whatever the handler does, [pcall] returns normally. A panic of
    the handler is recovered and logged, followed by the stack; an error
    the handler returns is logged and goes nowhere else. Every goroutine
    the dispatch loop has spawned runs [pcall] and so ends normally: no
    fault of a handler reaches the loop. *)
Theorem pcall_contains_faults (X : Externals) (method : N) (args : list Arg) :
  fst (pcall X method args) = Done tt
  ∧ (∀ v, Func_Call X method args = Panic v →
          snd (pcall X method args) = [LogDispatchPanic v; LogStack])
  ∧ (∀ e rest, Func_Call X method args = Done (Some e :: rest) →
               snd (pcall X method args) = [LogError e])
  ∧ (∀ rest, Func_Call X method args = Done (None :: rest) →
             snd (pcall X method args) = [])
  ∧ (Func_Call X method args = Done [] → snd (pcall X method args) = [])
  ∧ (∀ G cases d,
        Forall (fun r => fst r = Done tt) (run_spawned X (fst (dispatch G cases d)))).
Proof.
  assert (Hdone : ∀ m a, fst (pcall X m a) = Done tt).
  { intros m a. unfold pcall. destruct (Func_Call X m a) as [[|[e|] r]|v]; reflexivity. }
  split; [apply Hdone|].
  split; [intros v H; unfold pcall; now rewrite H|].
  split; [intros e rest H; unfold pcall; now rewrite H|].
  split; [intros rest H; unfold pcall; now rewrite H|].
  split; [intros H; unfold pcall; now rewrite H|].
  intros G cases d. unfold run_spawned.
  apply Forall_fmap, Forall_forall. intros job _. apply Hdone.
Qed.

(** ** Registration *)

Lemma fullName_inj (sname k1 k2 : string) :
  fullName sname k1 = fullName sname k2 → k1 = k2.
Proof.
  unfold fullName. induction sname as [|a s IH]; simpl; intros H.
  - now inversion H.
  - inversion H. auto.
Qed.

Lemma uint16_small (n : Z) : 0 ≤ n < 65536 → uint16 n = n.
Proof. intros H. unfold uint16. now apply Z.mod_small. Qed.

(** The entries [range] visits carry the names of the order. *)
Lemma range_entries_names (hs : gmap string Handler) (order : list string) :
  (∀ k, k ∈ order → is_Some (hs !! k)) →
  (range_entries hs order).*1 = order.
Proof.
  unfold range_entries. induction order as [|k ks IH]; intros H; [reflexivity|].
  simpl. destruct (H k) as [v Hv]; [left|]. rewrite Hv. simpl. f_equal.
  apply IH. intros k' Hk'. apply H. now right.
Qed.

Lemma range_entries_lookup (hs : gmap string Handler) (order : list string)
      (k : string) (v : Handler) :
  (k, v) ∈ range_entries hs order → hs !! k = Some v.
Proof.
  unfold range_entries. intros H. apply list_elem_of_omap in H as (k' & _ & Hk').
  destruct (hs !! k') as [v'|] eqn:E; simpl in Hk'; [|discriminate].
  inversion Hk'; subst. exact E.
Qed.

Section FoldRegister.

Variable sname : string.

Lemma fold_register_dict (es : list (string * Handler)) (R : Registry) :
  dict (env (r_pkg (foldl (register_one sname) R es)))
  = foldl (assign_alias sname) (dict (env (r_pkg R))) (es.*1).
Proof.
  revert R. induction es as [|e es IH]; intros R; [reflexivity|].
  simpl. now rewrite IH.
Qed.

Lemma fold_register_frame (es : list (string * Handler)) (R : Registry) :
  services (r_h (foldl (register_one sname) R es)) = services (r_h R)
  ∧ chLocalProcess (r_h (foldl (register_one sname) R es)) = chLocalProcess (r_h R)
  ∧ chCloseSession (r_h (foldl (register_one sname) R es)) = chCloseSession (r_h R)
  ∧ message_routes (r_pkg (foldl (register_one sname) R es)) = message_routes (r_pkg R)
  ∧ hrd (r_pkg (foldl (register_one sname) R es)) = hrd (r_pkg R).
Proof.
  revert R. induction es as [|e es IH]; intros R; [simpl; auto|].
  simpl. destruct (IH (register_one sname R e)) as (H1 & H2 & H3 & H4 & H5).
  rewrite H1, H2, H3, H4, H5. simpl. auto.
Qed.

Lemma fold_register_handlers (es : list (string * Handler)) (R : Registry)
      (k : string) (v : Handler) :
  NoDup (es.*1) →
  (k, v) ∈ es →
  handlers (r_h (foldl (register_one sname) R es)) !! fullName sname k = Some v.
Proof.
  revert R. induction es as [|e es IH]; intros R Hnd Hin.
  - inversion Hin.
  - simpl in Hnd. apply NoDup_cons in Hnd as [Hne Hnd].
    apply elem_of_cons in Hin as [<- | Hin]; simpl in *.
    + clear IH. 
      assert (Hkeep : ∀ es' R', k ∉ es'.*1 →
                handlers (r_h (foldl (register_one sname) R' es')) !! fullName sname k
                = handlers (r_h R') !! fullName sname k).
      { induction es' as [|e' es' IH']; intros R' Hk; [reflexivity|].
        simpl in *. apply not_elem_of_cons in Hk as [Hk1 Hk2].
        rewrite (IH' _ Hk2). simpl. apply lookup_insert_ne.
        intros Heq. apply fullName_inj in Heq. congruence. }
      rewrite (Hkeep _ _ Hne). simpl. apply lookup_insert_eq.
    + apply IH; assumption.
Qed.

(** Fresh names get the numbers that follow the size of the dictionary,
    in the order of the loop; the other entries stay. *)
Lemma fold_assign_alias (ks : list string) (d : gmap string Z) :
  NoDup ks →
  (∀ k, k ∈ ks → d !! fullName sname k = None) →
  Z.of_nat (size d) + Z.of_nat (length ks) ≤ 65535 →
  size (foldl (assign_alias sname) d ks) = (size d + length ks)%nat
  ∧ (∀ i k, ks !! i = Some k →
            foldl (assign_alias sname) d ks !! fullName sname k
            = Some (Z.of_nat (size d) + Z.of_nat i + 1))
  ∧ (∀ r, (∀ k, k ∈ ks → r ≠ fullName sname k) →
          foldl (assign_alias sname) d ks !! r = d !! r).
Proof.
  revert d. induction ks as [|k ks IH]; intros d Hnd Hfresh Hbound.
  - simpl. split; [lia|]. split; [intros i k H; inversion H | auto].
  - apply NoDup_cons in Hnd as [Hk Hnd]. simpl in Hbound.
    assert (Hfk : d !! fullName sname k = None) by (apply Hfresh; left).
    assert (Hsize : size (assign_alias sname d k) = S (size d))
      by (unfold assign_alias; now apply map_size_insert_None).
    destruct (IH (assign_alias sname d k)) as (IH1 & IH2 & IH3); [exact Hnd | | lia |].
    { intros k' Hk'. unfold assign_alias. rewrite lookup_insert_ne.
      - apply Hfresh. now right.
      - intros Heq. apply fullName_inj in Heq. congruence. }
    simpl. split; [rewrite IH1, Hsize; lia|]. split.
    + intros [|i] k' Hi; simpl in Hi.
      * inversion Hi; subst k'. rewrite IH3.
        -- unfold assign_alias. rewrite lookup_insert_eq. f_equal.
           rewrite (uint16_small (Z.of_nat (size d))) by lia.
           rewrite uint16_small by lia. lia.
        -- intros k' Hk' Heq. apply fullName_inj in Heq. congruence.
      * rewrite (IH2 i k' Hi), Hsize. f_equal. lia.
    + intros r Hr. rewrite IH3.
      * unfold assign_alias. apply lookup_insert_ne. intros Heq. apply (Hr k); [left | now symmetry].
      * intros k' Hk'. apply Hr. now right.
Qed.

End FoldRegister.

Lemma range_entries_elem (hs : gmap string Handler) (order : list string)
      (k : string) (v : Handler) :
  k ∈ order → hs !! k = Some v → (k, v) ∈ range_entries hs order.
Proof.
  intros Hk Hv. unfold range_entries. apply list_elem_of_omap.
  exists k. split; [exact Hk|]. now rewrite Hv.
Qed.

(** A registration that succeeds, spelled out. *)
Lemma register_success (R : Registry) (comp : Component) (order : list string)
      (hs : gmap string Handler) :
  services (r_h R) !! comp_Name comp = None →
  comp_Extract comp = Ok hs →
  ∃ R', register R comp order = (R', None)
        ∧ services (r_h R')
          = <[comp_Name comp := MkService (comp_Name comp) hs]> (services (r_h R))
        ∧ dict (env (r_pkg R'))
          = foldl (assign_alias (comp_Name comp)) (dict (env (r_pkg R)))
                  ((range_entries hs order).*1)
        ∧ message_routes (r_pkg R') = dict (env (r_pkg R'))
        ∧ (∀ k v, NoDup ((range_entries hs order).*1) →
                  (k, v) ∈ range_entries hs order →
                  handlers (r_h R') !! fullName (comp_Name comp) k = Some v).
Proof.
  intros Hnew Hex. unfold register. rewrite Hnew, Hex.
  eexists. split; [reflexivity|]. simpl.
  set (R1 := MkRegistry _ _).
  destruct (fold_register_frame (comp_Name comp) (range_entries hs order) R1)
    as (Hs & _).
  split; [rewrite Hs; reflexivity|].
  split; [now rewrite fold_register_dict|].
  split; [reflexivity|].
  intros k v Hnd Hin. now apply fold_register_handlers.
Qed.

(** C5: registering a component whose service name is already in the
    registry returns the duplicate-service error and leaves the
    registry (services, handlers, alias dictionary) as it was. More
    generally a registration that returns an error changes nothing, and
    one that returns [nil] has put the service and every handler of the
    component into the registry. *)
Theorem register_duplicate_is_atomic
        (R : Registry) (comp : Component) (order : list string) :
  is_Some (services (r_h R) !! comp_Name comp) →
  register R comp order
  = (R, Some ("handler: service already defined: " +:+ comp_Name comp))
  ∧ (∀ comp2 order2 R' e, register R comp2 order2 = (R', Some e) → R' = R)
  ∧ (∀ comp2 order2 R' hs,
        register R comp2 order2 = (R', None) →
        comp_Extract comp2 = Ok hs →
        range_order hs order2 →
        services (r_h R') !! comp_Name comp2 = Some (MkService (comp_Name comp2) hs)
        ∧ ∀ k v, hs !! k = Some v →
                 handlers (r_h R') !! fullName (comp_Name comp2) k = Some v).
Proof.
  intros [s Hs]. split; [unfold register; now rewrite Hs|]. split.
  - intros comp2 order2 R' e. unfold register.
    destruct (services (r_h R) !! comp_Name comp2); [intros H; now inversion H|].
    destruct (comp_Extract comp2); [discriminate | intros H; now inversion H].
  - intros comp2 order2 R' hs Hreg Hex [Hnd Hall].
    destruct (services (r_h R) !! comp_Name comp2) eqn:Hnew.
    { unfold register in Hreg. rewrite Hnew in Hreg. discriminate. }
    destruct (register_success R comp2 order2 hs Hnew Hex)
      as (R2 & Hreg2 & Hsv & _ & _ & Hh).
    rewrite Hreg in Hreg2. inversion Hreg2; subst R2.
    split; [rewrite Hsv; apply lookup_insert_eq|].
    intros k v Hk.
    assert (Hnames : (range_entries hs order2).*1 = order2).
    { apply range_entries_names. intros k' Hk'. now apply Hall. }
    apply Hh; [now rewrite Hnames|].
    apply range_entries_elem; [|exact Hk]. apply Hall. eauto.
Qed.

(** C4 (amended): a registration that succeeds, for routes not yet in
    the alias dictionary and as long as the aliases fit in 16 bits,
    gives the routes of the component the numbers that follow the size
    of the dictionary, one after the other in the order in which the
    loop visits the component's handler table (1, 2, ... when the
    dictionary was empty); the aliases assigned before are unchanged;
    and the dictionary of the message codec is the updated dictionary. *)
Theorem register_assigns_aliases
        (R : Registry) (comp : Component) (order : list string)
        (hs : gmap string Handler) :
  services (r_h R) !! comp_Name comp = None →
  comp_Extract comp = Ok hs →
  range_order hs order →
  (∀ k, k ∈ order → dict (env (r_pkg R)) !! fullName (comp_Name comp) k = None) →
  Z.of_nat (size (dict (env (r_pkg R)))) + Z.of_nat (length order) ≤ 65535 →
  ∃ R',
    register R comp order = (R', None)
    ∧ (∀ i k, order !! i = Some k →
              dict (env (r_pkg R')) !! fullName (comp_Name comp) k
              = Some (Z.of_nat (size (dict (env (r_pkg R)))) + Z.of_nat i + 1))
    ∧ (dict (env (r_pkg R)) = ∅ →
       ∀ i k, order !! i = Some k →
              dict (env (r_pkg R')) !! fullName (comp_Name comp) k
              = Some (Z.of_nat i + 1))
    ∧ (∀ r v, dict (env (r_pkg R)) !! r = Some v →
              dict (env (r_pkg R')) !! r = Some v)
    ∧ message_routes (r_pkg R') = dict (env (r_pkg R')).
Proof.
  intros Hnew Hex [Hnd Hall] Hfresh Hbound.
  destruct (register_success R comp order hs Hnew Hex)
    as (R' & Hreg & _ & Hdict & Hpub & _).
  assert (Hnames : (range_entries hs order).*1 = order).
  { apply range_entries_names. intros k Hk. now apply Hall. }
  rewrite Hnames in Hdict.
  destruct (fold_assign_alias (comp_Name comp) order (dict (env (r_pkg R)))
              Hnd Hfresh Hbound) as (_ & Halias & Hkeep).
  exists R'. split; [exact Hreg|]. rewrite Hdict.
  split; [exact Halias|]. split.
  - intros Hempty i k Hi. rewrite (Halias i k Hi), Hempty, map_size_empty.
    f_equal.
  - split; [|rewrite Hpub, Hdict; reflexivity].
    intros r v Hr. rewrite Hkeep; [exact Hr|].
    intros k Hk Heq. rewrite Heq, (Hfresh k Hk) in Hr. discriminate.
Qed.

Lemma range_order_room_JL : range_order Sample.roomHandlers ["Join"; "Leave"].
Proof.
  split.
  - apply (bool_decide_unpack _). vm_compute. exact I.
  - intros k. unfold Sample.roomHandlers. rewrite !elem_of_cons, elem_of_nil. split.
    + intros [-> | [-> | []]]; vm_compute; eauto.
    + intros [v Hv].
      destruct (decide (k = "Join")) as [-> | H1]; [now left|].
      destruct (decide (k = "Leave")) as [-> | H2]; [now right; left|].
      rewrite lookup_insert_ne, lookup_insert_ne, lookup_empty in Hv by congruence.
      discriminate.
Qed.

Lemma range_order_room_LJ : range_order Sample.roomHandlers ["Leave"; "Join"].
Proof.
  destruct range_order_room_JL as [_ H]. split.
  - apply (bool_decide_unpack _). vm_compute. exact I.
  - intros k. rewrite <- H, !elem_of_cons, elem_of_nil. tauto.
Qed.

(** C4 (as stated, refuted): the alias of a route is not determined by
    the registration. The component [room] has the handlers Join and
    Leave; the loop of [register] may visit them in either order, and
    the route room.Join gets the alias 1 in one order and 2 in the
    other. *)
Lemma alias_depends_on_range_order :
  range_order Sample.roomHandlers ["Join"; "Leave"]
  ∧ range_order Sample.roomHandlers ["Leave"; "Join"]
  ∧ dict (env (r_pkg (fst (register Sample.R0 Sample.room ["Join"; "Leave"]))))
      !! "room.Join" = Some 1
  ∧ dict (env (r_pkg (fst (register Sample.R0 Sample.room ["Leave"; "Join"]))))
      !! "room.Join" = Some 2.
Proof.
  split; [exact range_order_room_JL|]. split; [exact range_order_room_LJ|].
  split; vm_compute; reflexivity.
Qed.

Lemma register_duplicate_is_atomic_witness :
  register (fst (register Sample.R0 Sample.room ["Join"; "Leave"])) Sample.room ["Join"; "Leave"]
  = (fst (register Sample.R0 Sample.room ["Join"; "Leave"]),
     Some "handler: service already defined: room").
Proof.
  apply (register_duplicate_is_atomic
           (fst (register Sample.R0 Sample.room ["Join"; "Leave"]))
           Sample.room ["Join"; "Leave"]).
  vm_compute. eauto.
Defined.

Lemma register_assigns_aliases_witness :
  ∃ R', register Sample.R0 Sample.room ["Leave"; "Join"] = (R', None)
        ∧ dict (env (r_pkg R')) !! "room.Leave" = Some 1
        ∧ dict (env (r_pkg R')) !! "room.Join" = Some 2
        ∧ message_routes (r_pkg R') = dict (env (r_pkg R')).
Proof.
  destruct (register_assigns_aliases Sample.R0 Sample.room ["Leave"; "Join"]
              Sample.roomHandlers) as (R' & Hreg & Halias & _ & _ & Hpub).
  - reflexivity.
  - reflexivity.
  - exact range_order_room_LJ.
  - intros k _. reflexivity.
  - vm_compute. discriminate.
  - exists R'. split; [exact Hreg|].
    split; [exact (Halias 0%nat "Leave" eq_refl)|].
    split; [exact (Halias 1%nat "Join" eq_refl)|exact Hpub].
Defined.

(** The two side conditions of the alias assignment are needed. A route
    that is already in the dictionary gets a new alias, and the counter
    does not advance. *)
Example alias_of_known_route_changes :
  assign_alias "room" (<["room.Join" := 5]> ∅) "Join" !! "room.Join" = Some 2.
Proof. reflexivity. Qed.

(** With 65535 entries in the dictionary the 16-bit alias wraps to 0. *)
Lemma alias_wraps (sname name : string) (d : gmap string Z) :
  Z.of_nat (size d) = 65535 →
  assign_alias sname d name !! fullName sname name = Some 0.
Proof.
  intros H. unfold assign_alias. rewrite lookup_insert_eq, H. reflexivity.
Qed.

(** ** The read loop as a whole *)

(** Whenever the read loop of [handle] returns, the deferred function has
    closed the agent and its connection. *)
Lemma handle_returned_closed (X : Externals) (G : Pkg) (now : Z)
      (h : handlerService) (log : list LogEntry) (ptr : N) (c : Conn)
      (s : Session) (reads : list read_result) :
  snd (handle X G now h log ptr c s reads) = Returned →
  status (rs_agent (fst (handle X G now h log ptr c s reads))) = statusClosed
  ∧ conn_closed (conn (rs_agent (fst (handle X G now h log ptr c s reads)))) = true.
Proof.
  unfold handle. destruct (readLoop _ _ _ _ _) as [st' []]; simpl; try discriminate.
  intros _. destruct (handle_deferred_closes G st') as (H1 & H2 & _). auto.
Qed.

(** Scenario of the specification: handshake, acknowledgement, a Data
    packet with an unknown route, then a Data packet with a registered
    route. The first message is logged and dropped, the second one is
    enqueued, and the reader waits for more. *)
Example unknown_route_then_valid_message :
  let run := handle Sample.X0 Sample.G_noauth 5 Sample.h0 [] 1 Sample.conn0 Sample.sess0
                    [ReadOk [Byte.x01; Byte.x02; Byte.x05; Byte.x04]] in
  snd run = WaitingRead
  ∧ rs_log (fst run) = [LogNotFound "unknown.route"]
  ∧ ch_buf (chLocalProcess (rs_h (fst run))) = [Sample.item0]
  ∧ status (rs_agent (fst run)) = statusWorking
  ∧ written (conn (rs_agent (fst run))) = [Sample.hrd0].
Proof. vm_compute. repeat split. Qed.

(** Scenario of the specification: a Data packet right after the
    handshake, before the acknowledgement. The loop returns, the agent is
    closed, nothing was enqueued. *)
Example data_before_ack_run :
  let run := handle Sample.X0 Sample.G_noauth 5 Sample.h0 [] 1 Sample.conn0 Sample.sess0
                    [ReadOk [Byte.x01; Byte.x04; Byte.x02]] in
  snd run = Returned
  ∧ ch_buf (chLocalProcess (rs_h (fst run))) = []
  ∧ status (rs_agent (fst run)) = statusClosed
  ∧ conn_closed (conn (rs_agent (fst run))) = true.
Proof. vm_compute. repeat split. Qed.

(** The work item of the first scenario, taken by the dispatch loop: the
    agent gets the id of the request, the handler is spawned with the
    response function among its arguments, and [pcall] returns. *)
Example dispatch_stamps_and_spawns :
  let d := MkDState (set_chLocalProcess Sample.h0
                       (MkChan [Sample.item0] packetBacklog false))
                    (<[1%N := setStatus Sample.agent0 statusWorking]> ∅)
                    [] ∅ 0 false [] in
  let d' := fst (dispatch Sample.G_noauth [CaseLocalProcess] d) in
  lastMid <$> (d_heap d' !! 1%N) = Some 7
  ∧ d_spawned d' = [(20%N, um_args Sample.item0)]
  ∧ run_spawned Sample.X0 d' = [(Done tt, [])].
Proof. vm_compute. repeat split. Qed.

(** Shutdown: the loop returns at the die signal, the channels are
    closed, and the items still queued are not executed. *)
Example shutdown_drops_queued_items :
  let d := MkDState (set_chLocalProcess Sample.h0
                       (MkChan [Sample.item0; Sample.item0; Sample.item0]
                               packetBacklog false))
                    (<[1%N := setStatus Sample.agent0 statusWorking]> ∅)
                    [] ∅ 0 false [] in
  let out := dispatch Sample.G_noauth [CaseDie; CaseLocalProcess] d in
  snd out = true
  ∧ d_spawned (fst out) = []
  ∧ ch_closed (chLocalProcess (d_h (fst out))) = true
  ∧ d_ticker_stopped (fst out) = true.
Proof. vm_compute. repeat split. Qed.

(** X2: a handshake response that cannot be written: [processPacket] returns
    the error of the write, whether or not a callback is configured, and
    neither the authenticated flag nor the status changes. *)
Lemma handshake_write_fails (X : Externals) (G : Pkg) (now : Z)
      (st : RState) (p : packet.Packet) (e : string) :
  packet.p_Type p = packet.Handshake →
  (∀ auth, authFunc (env G) = Some auth →
           auth (session (rs_agent st)) (Unmarshal_HandShakeData X (packet.p_Data p)) = None) →
  write_err (conn (rs_agent st)) = Some e →
  ∃ st', processPacket X G now st p = (st', PReturn (Some e))
         ∧ Auth (session (rs_agent st')) = Auth (session (rs_agent st))
         ∧ status (rs_agent st') = status (rs_agent st)
         ∧ written (conn (rs_agent st')) = written (conn (rs_agent st)).
Proof.
  intros Hp Hauth Hw. unfold processPacket. rewrite Hp.
  destruct (authFunc (env G)) as [auth|].
  - rewrite (Hauth auth eq_refl), (conn_Write_fails _ _ _ Hw).
    eexists; split; [reflexivity|]. simpl; auto.
  - rewrite (conn_Write_fails _ _ _ Hw).
    eexists; split; [reflexivity|]. simpl; auto.
Qed.

(** * Further properties of the reader side *)

Section ReaderFrame.

Variables (X : Externals) (G : Pkg) (now : Z).

Lemma reader_frame_refl (st : RState) : reader_frame st st.
Proof.
  unfold reader_frame. repeat (split; [reflexivity|]).
  split; [exists []; now rewrite app_nil_r|].
  split; [exists []; now rewrite app_nil_r|].
  repeat split.
Qed.

Lemma reader_frame_trans (st1 st2 st3 : RState) :
  reader_frame st1 st2 → reader_frame st2 st3 → reader_frame st1 st3.
Proof.
  unfold reader_frame.
  intros (A1 & A2 & A3 & A4 & A5 & (b1 & A6) & (l1 & A7) & A8 & A9 & A10 & A11)
         (B1 & B2 & B3 & B4 & B5 & (b2 & B6) & (l2 & B7) & B8 & B9 & B10 & B11).
  split; [congruence|]. split; [congruence|]. split; [congruence|].
  split; [congruence|]. split; [congruence|].
  split; [exists (b1 ++ b2); rewrite B6, A6; now rewrite app_assoc|].
  split; [exists (l1 ++ l2); rewrite B7, A7; now rewrite app_assoc|].
  repeat split; congruence.
Qed.

Lemma reader_frame_println (e : LogEntry) (st : RState) :
  reader_frame st (println e st).
Proof.
  unfold reader_frame, println; simpl. repeat (split; [reflexivity|]).
  split; [exists []; now rewrite app_nil_r|].
  split; [exists [e]; reflexivity|]. repeat split.
Qed.

Lemma reader_frame_debugln (e : LogEntry) (st : RState) :
  reader_frame st (debugln G e st).
Proof.
  unfold debugln. destruct (debug (env G));
    [apply reader_frame_println | apply reader_frame_refl].
Qed.

(** Replacing the agent by one with the same address, session identity
    and [lastMid] is within the frame. *)
Lemma reader_frame_with_agent (st : RState) (a : agent) :
  a_ptr a = a_ptr (rs_agent st) →
  s_ID (session a) = s_ID (session (rs_agent st)) →
  s_UID (session a) = s_UID (session (rs_agent st)) →
  lastMid a = lastMid (rs_agent st) →
  reader_frame st (with_agent st a).
Proof.
  intros H1 H2 H3 H4. unfold reader_frame, with_agent; simpl.
  repeat (split; [reflexivity|]).
  split; [exists []; now rewrite app_nil_r|].
  split; [exists []; now rewrite app_nil_r|]. auto.
Qed.

(** The two ways [processMessage] can go, with the state it leaves. *)
Lemma processMessage_shape (st : RState) (msg : message.Message) :
  (∃ entry, processMessage X G now st msg = (println entry st, MDropped))
  ∨ (∃ item data,
        processMessage X G now st msg
        = match chan_send (chLocalProcess (rs_h st)) item with
          | Sent c =>
              (with_h (with_agent
                         (debugln G (LogMessage (s_UID (session (rs_agent st))) msg data) st)
                         (set_session (rs_agent st)
                            (set_LastHandlerAccessTime (session (rs_agent st)) now)))
                      (set_chLocalProcess (rs_h st) c), MEnqueued)
          | WouldBlock =>
              (with_agent
                 (debugln G (LogMessage (s_UID (session (rs_agent st))) msg data) st)
                 (set_session (rs_agent st)
                    (set_LastHandlerAccessTime (session (rs_agent st)) now)),
               MBlocked item)
          | SendOnClosed =>
              (with_agent
                 (debugln G (LogMessage (s_UID (session (rs_agent st))) msg data) st)
                 (set_session (rs_agent st)
                    (set_LastHandlerAccessTime (session (rs_agent st)) now)),
               MPanic)
          end).
Proof.
  unfold processMessage.
  destruct (handlers (rs_h st) !! message.m_Route msg) as [handler|]; [|left; eauto].
  destruct (run_pipeline _ _ _) as [payload|e]; [|left; eauto].
  destruct (IsRawArg handler).
  - right. eexists _, (RawData payload). unfold debugln.
    destruct (debug (env G)); reflexivity.
  - destruct (Unmarshal X (Type_ handler) payload) as [v|e]; [|left; eauto].
    right. eexists _, (Decoded (Type_ handler) v). unfold debugln.
    destruct (debug (env G)); reflexivity.
Qed.

Lemma processMessage_frame (st st' : RState) (msg : message.Message) (r : msg_result) :
  processMessage X G now st msg = (st', r) →
  reader_frame st st'
  ∧ (chan_bounded (chLocalProcess (rs_h st)) → chan_bounded (chLocalProcess (rs_h st')))
  ∧ conn (rs_agent st') = conn (rs_agent st)
  ∧ status (rs_agent st') = status (rs_agent st)
  ∧ lastAt (rs_agent st') = lastAt (rs_agent st)
  ∧ kicked (rs_agent st') = kicked (rs_agent st)
  ∧ decoder (rs_agent st') = decoder (rs_agent st)
  ∧ Auth (session (rs_agent st')) = Auth (session (rs_agent st)).
Proof.
  intros Hpm.
  destruct (processMessage_shape st msg) as [(entry & H) | (item & data & H)];
    rewrite H in Hpm; clear H.
  - inversion Hpm; subst. split; [apply reader_frame_println|]. simpl. repeat split; auto.
  - set (st1 := debugln G (LogMessage (s_UID (session (rs_agent st))) msg data) st) in *.
    assert (F1 : reader_frame st st1) by apply reader_frame_debugln.
    assert (Ha : rs_agent st1 = rs_agent st) by (subst st1; unfold debugln; destruct (debug (env G)); reflexivity).
    assert (Hh : rs_h st1 = rs_h st) by (subst st1; unfold debugln; destruct (debug (env G)); reflexivity).
    set (a1 := set_session (rs_agent st) (set_LastHandlerAccessTime (session (rs_agent st)) now)) in *.
    assert (F2 : reader_frame st (with_agent st1 a1)).
    { eapply reader_frame_trans; [exact F1|].
      apply reader_frame_with_agent; rewrite Ha; reflexivity. }
    unfold chan_send in Hpm.
    destruct (ch_closed (chLocalProcess (rs_h st))) eqn:Hcl.
    { inversion Hpm; subst. split; [exact F2|]. simpl. rewrite Hh. repeat split; auto. }
    destruct (_ <? _)%nat eqn:Hlt.
    + inversion Hpm; subst; clear Hpm. apply Nat.ltb_lt in Hlt. split.
      * destruct F2 as (A1 & A2 & A3 & A4 & A5 & _ & (more & A7) & A8 & A9 & A10 & A11).
        unfold reader_frame. simpl in *. rewrite Hh in *.
        repeat (split; [first [reflexivity | assumption | now symmetry
                               | eexists; first [reflexivity | eassumption]]|]).
        first [reflexivity | assumption].
      * simpl. split; [|repeat split; auto]. unfold chan_bounded. simpl.
        rewrite length_app. simpl. lia.
    + inversion Hpm; subst. split; [exact F2|]. simpl. rewrite Hh. repeat split; auto.
Qed.

End ReaderFrame.

Section PacketEffects.

Variables (X : Externals) (G : Pkg) (now : Z).

(** A state with the same handler service, a longer log and an agent of
    the same identity is within the frame. *)
Lemma reader_frame_same_h (st st' : RState) :
  rs_h st' = rs_h st →
  (∃ more, rs_log st' = rs_log st ++ more) →
  a_ptr (rs_agent st') = a_ptr (rs_agent st) →
  s_ID (session (rs_agent st')) = s_ID (session (rs_agent st)) →
  s_UID (session (rs_agent st')) = s_UID (session (rs_agent st)) →
  lastMid (rs_agent st') = lastMid (rs_agent st) →
  reader_frame st st'.
Proof.
  intros Hh Hl H1 H2 H3 H4. unfold reader_frame. rewrite Hh.
  repeat (split; [reflexivity|]).
  split; [exists []; now rewrite app_nil_r|]. auto.
Qed.

Lemma conn_Write_fields (c c' : Conn) (b : bytes) (r : option string) :
  conn_Write c b = (c', r) →
  RemoteAddr c' = RemoteAddr c ∧ conn_closed c' = conn_closed c
  ∧ write_err c' = write_err c.
Proof.
  unfold conn_Write. destruct (write_err c) eqn:E; intros H; inversion H; subst; simpl; auto.
Qed.

(** The cases of [processPacket], one goal for each way through it. *)
Ltac packet_cases st p :=
  unfold processPacket;
  destruct (packet.p_Type p) eqn:Hty;
  [ destruct (authFunc (env G)) as [auth|] eqn:Hauth;
    [ destruct (auth (session (rs_agent st))
                     (Unmarshal_HandShakeData X (packet.p_Data p))) as [errMsg|] eqn:Hans;
      [ | destruct (conn_Write (conn (rs_agent st)) (hrd G)) as [c [err|]] eqn:Hw ]
    | destruct (conn_Write (conn (rs_agent st)) (hrd G)) as [c [err|]] eqn:Hw ]
  |
  |
  | destruct (status (rs_agent st) <? statusWorking) eqn:Hlt;
    [ | destruct (message_Decode X (packet.p_Data p)) as [msg|e] eqn:Hdec;
        [ destruct (processMessage X G now st msg) as [st1 r1] eqn:Hpm; destruct r1 | ] ]
  | ].

Ltac close_frame :=
  unfold debugln; try destruct (debug (env G));
  apply reader_frame_same_h; simpl;
  first [reflexivity | (exists []; now rewrite app_nil_r) | (eexists; reflexivity)].

Lemma processPacket_frame (st st' : RState) (p : packet.Packet) (r : pkt_result) :
  processPacket X G now st p = (st', r) →
  reader_frame st st'
  ∧ (chan_bounded (chLocalProcess (rs_h st)) → chan_bounded (chLocalProcess (rs_h st')))
  ∧ decoder (rs_agent st') = decoder (rs_agent st).
Proof.
  packet_cases st p; simpl; intros H; inversion H; subst; clear H;
    try (split; [close_frame | split; [unfold debugln; try destruct (debug (env G)); auto
                                      | unfold debugln; try destruct (debug (env G)); reflexivity]]).
  all: destruct (processMessage_frame X G now _ _ _ _ Hpm) as (F & Hb & _ & _ & _ & _ & Hd & _).
  all: try (split; [exact F | split; [exact Hb | exact Hd]]).
  all: split; [| split; [exact Hb | exact Hd]].
  all: eapply reader_frame_trans; [exact F|];
       apply reader_frame_with_agent; reflexivity.
Qed.

(** X3: [processPacket] sets the agent's [lastAt] to the current time
    exactly when it returns [nil]; when it returns an error the time
    stamp is the old one. *)
Theorem lastAt_set_on_nil_return (st st' : RState) (p : packet.Packet)
        (res : option string) :
  processPacket X G now st p = (st', PReturn res) →
  lastAt (rs_agent st') = match res with
                          | None => now
                          | Some _ => lastAt (rs_agent st)
                          end.
Proof.
  packet_cases st p; simpl; intros H; inversion H; subst; clear H;
    try reflexivity;
    try (unfold conn_Write in Hw; destruct (write_err (conn (rs_agent st)));
         inversion Hw; subst; reflexivity).
Qed.

(** X4: the only changes [processPacket] makes to the status of an agent
    are the one to Handshake-Ack-Pending, on a Handshake packet, and the
    one to Working, on a HandshakeAck packet; in particular it never
    closes an agent and never reopens one on a Heartbeat or Data packet. *)
Theorem status_changes_only_by_handshake (st st' : RState) (p : packet.Packet)
        (r : pkt_result) :
  processPacket X G now st p = (st', r) →
  status (rs_agent st') = status (rs_agent st)
  ∨ (packet.p_Type p = packet.Handshake ∧ status (rs_agent st') = statusHandshake
     ∧ is_Some (authFunc (env G)))
  ∨ (packet.p_Type p = packet.HandshakeAck ∧ status (rs_agent st') = statusWorking).
Proof.
  packet_cases st p; simpl; intros H; inversion H; subst; clear H;
    try (left; reflexivity);
    try (right; left; rewrite debugln_agent; simpl; eauto; fail);
    try (right; right; rewrite debugln_agent; simpl; eauto; fail).
  all: destruct (processMessage_frame X G now _ _ _ _ Hpm) as (_ & _ & _ & Hs & _).
  all: left; simpl; exact Hs.
Qed.

Lemma set_lastAt_twice (st : RState) :
  with_agent (with_agent st (set_lastAt (rs_agent st) now))
             (set_lastAt (rs_agent (with_agent st (set_lastAt (rs_agent st) now))) now)
  = with_agent st (set_lastAt (rs_agent st) now).
Proof. reflexivity. Qed.

(** X5: any number of Heartbeat packets (or packets of a type no case
    mentions), one or many, leave the state as one of them does: only
    [lastAt] is refreshed; status, session, connection, handler service
    and log are untouched. *)
Theorem keepalive_only_refreshes_lastAt (st : RState) (ps : list packet.Packet) :
  Forall (fun p => is_keepalive p = true) ps →
  ps ≠ [] →
  processPackets X G now st ps
  = (with_agent st (set_lastAt (rs_agent st) now), PReturn None).
Proof.
  intros Hall Hne.
  assert (Hone : ∀ s p, is_keepalive p = true →
            processPacket X G now s p = (with_agent s (set_lastAt (rs_agent s) now), PReturn None)).
  { intros s p Hk. unfold is_keepalive in Hk. unfold processPacket.
    destruct (packet.p_Type p); try discriminate; reflexivity. }
  destruct ps as [|p ps]; [congruence|]. clear Hne.
  apply Forall_cons in Hall as [Hp Hps]. simpl. rewrite (Hone st p Hp).
  set (s1 := with_agent st (set_lastAt (rs_agent st) now)).
  assert (Hrest : ∀ qs, Forall (fun p => is_keepalive p = true) qs →
            processPackets X G now s1 qs = (s1, PReturn None)).
  { induction qs as [|q qs IH]; intros Hq; [reflexivity|].
    apply Forall_cons in Hq as [Hq1 Hq2]. simpl. rewrite (Hone s1 q Hq1).
    subst s1. rewrite set_lastAt_twice. now apply IH. }
  now apply Hrest.
Qed.

(** X6: a Handshake packet that the callback accepts puts the agent into
    Handshake-Ack-Pending whatever its status was, also when it was
    Working: a Data packet that follows is then refused as one that came
    before the acknowledgement. *)
Theorem handshake_again_demotes (st : RState) (p q : packet.Packet)
        (auth : Session → option HandShakeData → option string)
        (rest : list packet.Packet) :
  packet.p_Type p = packet.Handshake →
  authFunc (env G) = Some auth →
  auth (session (rs_agent st)) (Unmarshal_HandShakeData X (packet.p_Data p)) = None →
  write_err (conn (rs_agent st)) = None →
  packet.p_Type q = packet.Data →
  ∃ st' e,
    processPackets X G now st (p :: q :: rest) = (st', PReturn (Some e))
    ∧ status (rs_agent st') = statusHandshake
    ∧ chLocalProcess (rs_h st') = chLocalProcess (rs_h st).
Proof.
  intros Hp Ha Hok Hw Hq. simpl. unfold processPacket at 1.
  rewrite Hp, Ha, Hok, (conn_Write_ok _ _ Hw).
  match goal with
  | |- context [processPacket X G now ?s q] =>
      assert (Hs : status (rs_agent s) = statusHandshake)
        by (simpl; rewrite debugln_agent; reflexivity);
      assert (Hh : rs_h s = rs_h st)
        by (simpl; rewrite debugln_h; reflexivity);
      set (s1 := s) in *
  end.
  unfold processPacket. rewrite Hq, Hs. simpl.
  do 2 eexists. split; [reflexivity|]. split; [exact Hs | now rewrite Hh].
Qed.

(** X7: a Data packet whose message does not decode is fatal to the
    connection: [processPacket] returns the decoder's error and changes
    nothing, the packets and reads that follow are not looked at, and the
    read loop returns. *)
Theorem undecodable_message_ends_loop (st : RState) (p : packet.Packet) (e : string) :
  packet.p_Type p = packet.Data →
  statusWorking ≤ status (rs_agent st) →
  message_Decode X (packet.p_Data p) = Err e →
  processPacket X G now st p = (st, PReturn (Some e))
  ∧ (∀ st0 chunk held pre post reads,
        conn_closed (conn (rs_agent st0)) = false →
        decoder_Decode X (decoder (rs_agent st0)) chunk = Ok (pre ++ p :: post, held) →
        processPackets X G now (with_agent st0 (set_decoder (rs_agent st0) held)) pre
          = (st, PReturn None) →
        readLoop X G now (ReadOk chunk :: reads) st0 = (println (LogError e) st, Returned)).
Proof.
  intros Hp Hs Hd.
  assert (Hb : (status (rs_agent st) <? statusWorking) = false) by (apply Z.ltb_ge; exact Hs).
  assert (Hpp : processPacket X G now st p = (st, PReturn (Some e)))
    by (unfold processPacket; now rewrite Hp, Hb, Hd).
  split; [exact Hpp|].
  intros st0 chunk held pre post reads Hc Hdec Hpre.
  apply (readLoop_packet_error X G now st0 st chunk held (pre ++ p :: post) reads e Hc Hdec).
  rewrite (processPackets_app X G now pre (p :: post) _ st Hpre). simpl. now rewrite Hpp.
Qed.

(** X8: a Handshake packet that the callback rejects does not stop the
    batch it came in: [processPacket] returns [nil] after the kick, and
    the packets that follow are processed on the kicked agent. A
    HandshakeAck right behind it still brings the agent to Working. *)
Theorem rejected_handshake_does_not_stop_batch
        (st : RState) (p ack : packet.Packet)
        (auth : Session → option HandShakeData → option string) (errMsg : string)
        (rest : list packet.Packet) :
  packet.p_Type p = packet.Handshake →
  authFunc (env G) = Some auth →
  auth (session (rs_agent st)) (Unmarshal_HandShakeData X (packet.p_Data p)) = Some errMsg →
  packet.p_Type ack = packet.HandshakeAck →
  ∃ st',
    processPackets X G now st (p :: ack :: rest) = processPackets X G now st' rest
    ∧ kicked (rs_agent st') = Some errMsg
    ∧ status (rs_agent st') = statusWorking
    ∧ rs_h st' = rs_h st.
Proof.
  intros Hp Ha Hrej Hack. simpl. unfold processPacket at 1.
  rewrite Hp, Ha, Hrej. unfold processPacket at 1. rewrite Hack.
  eexists. split; [reflexivity|]. simpl.
  rewrite debugln_agent, debugln_h. simpl. auto.
Qed.

End PacketEffects.

Section LoopInvariants.

Variables (X : Externals) (G : Pkg) (now : Z).

Lemma processPackets_frame (ps : list packet.Packet) (st st' : RState) (r : pkt_result) :
  processPackets X G now st ps = (st', r) →
  reader_frame st st'
  ∧ (chan_bounded (chLocalProcess (rs_h st)) → chan_bounded (chLocalProcess (rs_h st'))).
Proof.
  revert st. induction ps as [|p ps IH]; intros st H; simpl in H.
  - inversion H; subst. split; [apply reader_frame_refl | auto].
  - destruct (processPacket X G now st p) as [s1 r1] eqn:Hp.
    destruct (processPacket_frame X G now st s1 p r1 Hp) as (F1 & B1 & _).
    destruct r1 as [[e|]|m|].
    + inversion H; subst. auto.
    + destruct (IH s1 H) as (F2 & B2).
      split; [exact (reader_frame_trans _ _ _ F1 F2) | auto].
    + inversion H; subst. auto.
    + inversion H; subst. auto.
Qed.

Lemma readLoop_frame (reads : list read_result) (st st' : RState) (x : loop_exit) :
  readLoop X G now reads st = (st', x) →
  reader_frame st st'
  ∧ (chan_bounded (chLocalProcess (rs_h st)) → chan_bounded (chLocalProcess (rs_h st'))).
Proof.
  revert st. induction reads as [|rd reads IH]; intros st H; simpl in H.
  - destruct (conn_closed (conn (rs_agent st))); inversion H; subst.
    + split; [apply reader_frame_println | auto].
    + split; [apply reader_frame_refl | auto].
  - destruct (conn_closed (conn (rs_agent st))).
    { inversion H; subst. split; [apply reader_frame_println | auto]. }
    destruct rd as [e|chunk].
    { inversion H; subst. split; [apply reader_frame_println | auto]. }
    destruct (decoder_Decode X (decoder (rs_agent st)) chunk) as [[packets held]|e].
    2:{ inversion H; subst. split; [apply reader_frame_println | auto]. }
    set (s0 := with_agent st (set_decoder (rs_agent st) held)) in *.
    assert (F0 : reader_frame st s0)
      by (unfold s0; apply reader_frame_with_agent; reflexivity).
    destruct (processPackets X G now s0 packets) as [s2 r2] eqn:Hps.
    destruct (processPackets_frame packets s0 s2 r2 Hps) as (F1 & B1).
    assert (F01 : reader_frame st s2) by exact (reader_frame_trans _ _ _ F0 F1).
    destruct r2 as [[e|]|m|].
    + inversion H; subst. split; [|auto].
      eapply reader_frame_trans; [exact F01 | apply reader_frame_println].
    + destruct (IH s2 H) as (F2 & B2).
      split; [exact (reader_frame_trans _ _ _ F01 F2) | auto].
    + inversion H; subst. auto.
    + inversion H; subst. auto.
Qed.

Lemma handle_frame (h : handlerService) (log : list LogEntry) (ptr : N)
      (c : Conn) (s : Session) (reads : list read_result) :
  reader_frame (MkRState h (newAgent ptr c s now) log)
               (fst (handle X G now h log ptr c s reads))
  ∧ (chan_bounded (chLocalProcess h) →
     chan_bounded (chLocalProcess (rs_h (fst (handle X G now h log ptr c s reads))))).
Proof.
  unfold handle.
  set (s0 := MkRState h (newAgent ptr c s now) log).
  assert (F0 : reader_frame s0 (debugln G (LogNewSession ptr) s0))
    by apply reader_frame_debugln.
  assert (H0 : rs_h (debugln G (LogNewSession ptr) s0) = h)
    by (rewrite debugln_h; reflexivity).
  destruct (readLoop X G now reads (debugln G (LogNewSession ptr) s0)) as [s1 x] eqn:Hl.
  destruct (readLoop_frame reads _ s1 x Hl) as (F1 & B1). rewrite H0 in B1.
  assert (F01 : reader_frame s0 s1) by exact (reader_frame_trans _ _ _ F0 F1).
  assert (Fd : reader_frame s1 (handle_deferred G s1)).
  { unfold handle_deferred. eapply reader_frame_trans; [|apply reader_frame_debugln].
    apply reader_frame_with_agent; reflexivity. }
  assert (Hd : rs_h (handle_deferred G s1) = rs_h s1)
    by (unfold handle_deferred; rewrite debugln_h; reflexivity).
  destruct x; simpl; rewrite ?Hd; split; auto;
    exact (reader_frame_trans _ _ _ F01 Fd).
Qed.

(** X9: serving a connection never touches the registry: after [handle],
    however far it got and whatever was read, the services and the
    handlers of the handler service are the ones it started with. *)
Theorem handle_keeps_registry (h : handlerService) (log : list LogEntry) (ptr : N)
        (c : Conn) (s : Session) (reads : list read_result) :
  services (rs_h (fst (handle X G now h log ptr c s reads))) = services h
  ∧ handlers (rs_h (fst (handle X G now h log ptr c s reads))) = handlers h.
Proof.
  destruct (handle_frame h log ptr c s reads) as ((H1 & H2 & _) & _). auto.
Qed.

(** X10: the reader only ever appends to the pending-work channel: after
    [handle] the buffer is the old one followed by the items of this
    connection, the capacity and the closed flag are unchanged, and a
    buffer within its capacity is still within it. The log, too, only
    grows, and the agent's [lastMid] is never written. *)
Theorem handle_only_appends (h : handlerService) (log : list LogEntry) (ptr : N)
        (c : Conn) (s : Session) (reads : list read_result) :
  let st' := fst (handle X G now h log ptr c s reads) in
  (∃ added, ch_buf (chLocalProcess (rs_h st')) = ch_buf (chLocalProcess h) ++ added)
  ∧ ch_cap (chLocalProcess (rs_h st')) = ch_cap (chLocalProcess h)
  ∧ ch_closed (chLocalProcess (rs_h st')) = ch_closed (chLocalProcess h)
  ∧ (chan_bounded (chLocalProcess h) → chan_bounded (chLocalProcess (rs_h st')))
  ∧ (∃ more, rs_log st' = log ++ more)
  ∧ lastMid (rs_agent st') = 0.
Proof.
  destruct (handle_frame h log ptr c s reads)
    as ((_ & _ & _ & H4 & H5 & H6 & H7 & _ & _ & _ & H11) & Hb).
  simpl in *. auto 10.
Qed.

(** The loop never waits for a read when the reads end in an error. *)
Lemma readLoop_ends (reads : list read_result) (e : string) (st : RState) :
  snd (readLoop X G now (reads ++ [ReadErr e]) st) ≠ WaitingRead.
Proof.
  revert st. induction reads as [|rd reads IH]; intros st; simpl.
  - destruct (conn_closed (conn (rs_agent st))); simpl; discriminate.
  - destruct (conn_closed (conn (rs_agent st))); [simpl; discriminate|].
    destruct rd as [e'|chunk]; [simpl; discriminate|].
    destruct (decoder_Decode X (decoder (rs_agent st)) chunk) as [[packets held]|e'];
      [|simpl; discriminate].
    destruct (processPackets X G now _ packets) as [s2 [[e'|]|m|]];
      try (simpl; discriminate).
    apply IH.
Qed.

(** A reader that waits in the send found the channel full. *)
Lemma processMessage_blocked_full (st st' : RState) (msg : message.Message)
      (m : unhandledMessage) :
  processMessage X G now st msg = (st', MBlocked m) →
  (ch_cap (chLocalProcess (rs_h st')) ≤ length (ch_buf (chLocalProcess (rs_h st'))))%nat.
Proof.
  intros H.
  destruct (processMessage_shape X G now st msg) as [(entry & E) | (item & data & E)];
    rewrite E in H; [discriminate|]. clear E.
  unfold chan_send in H.
  destruct (ch_closed (chLocalProcess (rs_h st))); [discriminate|].
  destruct (_ <? _)%nat eqn:Hlt; [discriminate|].
  apply Nat.ltb_ge in Hlt. inversion H; subst. simpl. now rewrite debugln_h.
Qed.

Lemma processPacket_blocked_full (st st' : RState) (p : packet.Packet)
      (m : unhandledMessage) :
  processPacket X G now st p = (st', PBlocked m) →
  (ch_cap (chLocalProcess (rs_h st')) ≤ length (ch_buf (chLocalProcess (rs_h st'))))%nat.
Proof.
  unfold processPacket.
  destruct (packet.p_Type p); try discriminate.
  - destruct (authFunc (env G)) as [auth|].
    + destruct (auth _ _); [discriminate|].
      destruct (conn_Write _ _) as [c [err|]]; discriminate.
    + destruct (conn_Write _ _) as [c [err|]]; discriminate.
  - destruct (_ <? _); [discriminate|].
    destruct (message_Decode X (packet.p_Data p)) as [msg|e]; [|discriminate].
    destruct (processMessage X G now st msg) as [s1 r1] eqn:Hpm.
    destruct r1; simpl; try discriminate.
    intros H; inversion H; subst. eapply processMessage_blocked_full; eauto.
Qed.

Lemma processPackets_blocked_full (ps : list packet.Packet) (st st' : RState)
      (m : unhandledMessage) :
  processPackets X G now st ps = (st', PBlocked m) →
  (ch_cap (chLocalProcess (rs_h st')) ≤ length (ch_buf (chLocalProcess (rs_h st'))))%nat.
Proof.
  revert st. induction ps as [|p ps IH]; intros st H; simpl in H; [discriminate|].
  destruct (processPacket X G now st p) as [s1 r1] eqn:Hp.
  destruct r1 as [[e|]|m'|]; try discriminate.
  - eapply IH; eauto.
  - inversion H; subst. eapply processPacket_blocked_full; eauto.
Qed.

Lemma readLoop_blocked_full (reads : list read_result) (st st' : RState)
      (m : unhandledMessage) :
  readLoop X G now reads st = (st', BlockedSend m) →
  (ch_cap (chLocalProcess (rs_h st')) ≤ length (ch_buf (chLocalProcess (rs_h st'))))%nat.
Proof.
  revert st. induction reads as [|rd reads IH]; intros st H; simpl in H.
  - destruct (conn_closed (conn (rs_agent st))); discriminate.
  - destruct (conn_closed (conn (rs_agent st))); [discriminate|].
    destruct rd as [e|chunk]; [discriminate|].
    destruct (decoder_Decode X (decoder (rs_agent st)) chunk) as [[packets held]|e];
      [|discriminate].
    destruct (processPackets X G now _ packets) as [s2 r2] eqn:Hps.
    destruct r2 as [[e|]|m'|]; try discriminate.
    + eapply IH; eauto.
    + inversion H; subst. eapply processPackets_blocked_full; eauto.
Qed.

(** X11: once the reads of a connection end in an error, [handle] does not
    stay in the read loop: either the loop has returned (or the send on a
    closed channel has panicked) and the deferred function has closed the
    agent and its connection, or the reader is still waiting in the send
    of a work item, on a pending-work channel that is full. *)
Theorem handle_closes_after_read_error
        (h : handlerService) (log : list LogEntry) (ptr : N)
        (c : Conn) (s : Session) (reads : list read_result) (e : string) :
  let run := handle X G now h log ptr c s (reads ++ [ReadErr e]) in
  (∃ m, snd run = BlockedSend m
        ∧ (ch_cap (chLocalProcess (rs_h (fst run)))
           ≤ length (ch_buf (chLocalProcess (rs_h (fst run)))))%nat)
  ∨ ((snd run = Returned ∨ snd run = Panicked)
     ∧ status (rs_agent (fst run)) = statusClosed
     ∧ conn_closed (conn (rs_agent (fst run))) = true).
Proof.
  unfold handle.
  pose proof (readLoop_ends reads e (debugln G (LogNewSession ptr)
                                       (MkRState h (newAgent ptr c s now) log))) as Hend.
  destruct (readLoop X G now (reads ++ [ReadErr e]) _) as [s1 x] eqn:Hl.
  destruct x as [| |m|]; simpl in *.
  - right. destruct (handle_deferred_closes G s1) as (H1 & H2 & _). auto.
  - congruence.
  - left. exists m. split; [reflexivity|]. eapply readLoop_blocked_full; eauto.
  - right. destruct (handle_deferred_closes G s1) as (H1 & H2 & _). auto.
Qed.

End LoopInvariants.

(** * Further properties of the message router *)

(** X12: the stages of the inbound pipeline compose: running a pipeline
    made of two parts is running the first part and, when it succeeds,
    the second part on its output; when the first part fails the second
    one is not consulted and the error is that of the first. *)
Theorem run_pipeline_app (hs1 hs2 : list (Session → bytes → result bytes))
        (s : Session) (payload : bytes) :
  run_pipeline (hs1 ++ hs2) s payload
  = match run_pipeline hs1 s payload with
    | Ok out => run_pipeline hs2 s out
    | Err e => Err e
    end.
Proof.
  revert payload. induction hs1 as [|f hs1 IH]; intros payload; simpl; [reflexivity|].
  destruct (f s payload) as [out|e]; [apply IH | reflexivity].
Qed.

Section RouterEffects.

Variables (X : Externals) (G : Pkg) (now : Z).

(** X13: [processMessage] changes nothing of the agent but the session's
    [LastHandlerAccessTime], and not even that when it drops the
    message; status, connection, [lastAt] and [lastMid] are not its
    business. *)
Theorem processMessage_touches_only_access_time
        (st st' : RState) (msg : message.Message) (r : msg_result) :
  processMessage X G now st msg = (st', r) →
  match r with
  | MDropped => rs_agent st' = rs_agent st ∧ rs_h st' = rs_h st
  | _ => rs_agent st'
         = set_session (rs_agent st)
                       (set_LastHandlerAccessTime (session (rs_agent st)) now)
  end.
Proof.
  intros H.
  destruct (processMessage_shape X G now st msg) as [(entry & E) | (item & data & E)];
    rewrite E in H; clear E.
  - inversion H; subst. simpl. auto.
  - destruct (chan_send (chLocalProcess (rs_h st)) item); inversion H; subst; reflexivity.
Qed.

(** X14: what the handler is given is the output of the inbound pipeline,
    not the payload as it came: a message whose route is registered,
    whose payload passes the pipeline and (unless the handler takes the
    raw bytes) deserializes, is never dropped, and the work item made for
    it names the handler's method and carries the handler's receiver and
    the raw or deserialized pipeline output as arguments. *)
Theorem handler_receives_pipeline_output
        (st st' : RState) (msg : message.Message) (r : msg_result)
        (h : Handler) (payload : bytes) (data : Data) :
  handlers (rs_h st) !! message.m_Route msg = Some h →
  run_pipeline (Pipeline_Inbound G) (session (rs_agent st)) (message.m_Data msg)
    = Ok payload →
  (if IsRawArg h then data = RawData payload
   else ∃ v, Unmarshal X (Type_ h) payload = Ok v ∧ data = Decoded (Type_ h) v) →
  processMessage X G now st msg = (st', r) →
  r ≠ MDropped
  ∧ ∀ m, produced st' r = Some m →
         um_handler m = Method h
         ∧ um_args m !! 0%nat = Some (ArgReceiver (Receiver h))
         ∧ um_args m !! 1%nat = Some (ArgSrv (a_ptr (rs_agent st)))
         ∧ um_args m !! 2%nat = Some (ArgData data).
Proof.
  intros Hh Hpipe Hdata. unfold processMessage. rewrite Hh, Hpipe.
  assert (Hdec : (if IsRawArg h then Ok (RawData payload)
                  else match Unmarshal X (Type_ h) payload with
                       | Ok v => Ok (Decoded (Type_ h) v)
                       | Err e => Err e
                       end) = Ok data).
  { destruct (IsRawArg h); [now subst|]. destruct Hdata as (v & Hv & ->). now rewrite Hv. }
  rewrite Hdec. clear Hdec.
  set (item := MkUnhandled _ _ _ _).
  assert (Hitem : um_handler item = Method h
                  ∧ um_args item !! 0%nat = Some (ArgReceiver (Receiver h))
                  ∧ um_args item !! 1%nat = Some (ArgSrv (a_ptr (rs_agent st)))
                  ∧ um_args item !! 2%nat = Some (ArgData data)).
  { subst item. simpl. destruct (message.Kind_eqb _ _); simpl; auto. }
  clearbody item. unfold chan_send.
  destruct (ch_closed _).
  { intros H; inversion H; subst. split; [discriminate|]. intros m Hm; discriminate. }
  destruct (_ <? _)%nat; intros H; inversion H; subst; (split; [discriminate|]);
    simpl; intros m Hm.
  - rewrite last_snoc in Hm. inversion Hm; subst. exact Hitem.
  - inversion Hm; subst. exact Hitem.
Qed.

End RouterEffects.

Lemma handler_receives_pipeline_output_witness :
  snd (processMessage Sample.X0 Sample.G_noauth 5 Sample.st_working
         (message.MkMessage message.Notify 0 "room.raw" [Byte.x07]))
  ≠ MDropped
  ∧ um_handler (MkUnhandled 1 0 21 [ArgReceiver 10; ArgSrv 1; ArgData (RawData [Byte.x07])])
    = Method Sample.rawHandler.
Proof.
  destruct (handler_receives_pipeline_output Sample.X0 Sample.G_noauth 5
              Sample.st_working
              (fst (processMessage Sample.X0 Sample.G_noauth 5 Sample.st_working
                      (message.MkMessage message.Notify 0 "room.raw" [Byte.x07])))
              (message.MkMessage message.Notify 0 "room.raw" [Byte.x07])
              (snd (processMessage Sample.X0 Sample.G_noauth 5 Sample.st_working
                      (message.MkMessage message.Notify 0 "room.raw" [Byte.x07])))
              Sample.rawHandler [Byte.x07] (RawData [Byte.x07]))
    as (Hnot & Hitem).
  - vm_compute. reflexivity.
  - reflexivity.
  - reflexivity.
  - vm_compute. reflexivity.
  - split; [exact Hnot|].
    destruct (Hitem (MkUnhandled 1 0 21 [ArgReceiver 10; ArgSrv 1; ArgData (RawData [Byte.x07])]))
      as (H1 & _).
    + vm_compute. reflexivity.
    + exact H1.
Defined.

Lemma processMessage_touches_only_access_time_witness :
  rs_agent (fst (processMessage Sample.X0 Sample.G_noauth 5 Sample.st_working
                   (message.MkMessage message.Request 9 "unknown.route" [])))
  = rs_agent Sample.st_working.
Proof.
  exact (proj1 (processMessage_touches_only_access_time Sample.X0 Sample.G_noauth 5
                  Sample.st_working _
                  (message.MkMessage message.Request 9 "unknown.route" [])
                  MDropped eq_refl)).
Defined.

(** * Further properties of the dispatch loop *)

Section DispatchLoop.

Variable G : Pkg.

(** Stamping [lastMid] on an agent does not change which items are live. *)
Lemma live_insert_lastMid (heap : gmap N agent) (p : N) (a : agent) (mid : Z)
      (m : unhandledMessage) :
  heap !! p = Some a →
  live (<[p := set_lastMid a mid]> heap) m = live heap m.
Proof.
  intros Hp. unfold live. destruct (decide (um_agent m = p)) as [-> | Hne].
  - now rewrite lookup_insert_eq, Hp.
  - now rewrite lookup_insert_ne by congruence.
Qed.

Lemma filter_live_ext (h1 h2 : gmap N agent) (l : list unhandledMessage) :
  (∀ m, live h1 m = live h2 m) → List.filter (live h1) l = List.filter (live h2) l.
Proof.
  intros H. induction l as [|m l IH]; simpl; [reflexivity|].
  rewrite H, IH. reflexivity.
Qed.

(** One round on the pending-work case, spelled out. *)
Lemma dispatch_step_work (d : DState) (m : unhandledMessage)
      (rest : list unhandledMessage) :
  ch_buf (chLocalProcess (d_h d)) = m :: rest →
  let d' := dispatch_step G d CaseLocalProcess in
  ch_buf (chLocalProcess (d_h d')) = rest
  ∧ d_spawned d' = d_spawned d ++ (if live (d_heap d) m then [spawn_of m] else [])
  ∧ (∀ m', live (d_heap d') m' = live (d_heap d) m').
Proof.
  intros Hbuf. unfold dispatch_step, chan_recv. rewrite Hbuf. unfold live at 1 2.
  destruct (d_heap d !! um_agent m) as [a|] eqn:Ha; simpl.
  - destruct (status a =? statusClosed); simpl.
    + rewrite app_nil_r. auto.
    + split; [reflexivity|]. split; [reflexivity|].
      intros m'. now apply live_insert_lastMid.
  - rewrite app_nil_r. auto.
Qed.

(** X15: the dispatch loop takes the work items in the order in which they
    were queued and each one once: after [n] rounds on the pending-work
    case the first [n] items are gone from the channel, and what was
    spawned is, in that order, one execution for every one of them whose
    agent was not closed; the items of closed agents are discarded
    without a call. Rounds on an empty channel do nothing. *)
Theorem dispatch_takes_items_in_order (n : nat) (d : DState) :
  let buf := ch_buf (chLocalProcess (d_h d)) in
  let out := dispatch G (replicate n CaseLocalProcess) d in
  snd out = false
  ∧ ch_buf (chLocalProcess (d_h (fst out))) = drop n buf
  ∧ d_spawned (fst out)
    = d_spawned d ++ (spawn_of <$> List.filter (live (d_heap d)) (take n buf)).
Proof.
  revert d. induction n as [|n IH]; intros d; cbv zeta.
  - simpl. rewrite app_nil_r. auto.
  - change (dispatch G (replicate (S n) CaseLocalProcess) d)
      with (dispatch G (replicate n CaseLocalProcess) (dispatch_step G d CaseLocalProcess)).
    destruct (ch_buf (chLocalProcess (d_h d))) as [|m rest] eqn:Hbuf.
    + assert (Hstep : dispatch_step G d CaseLocalProcess = d)
        by (unfold dispatch_step, chan_recv; now rewrite Hbuf).
      rewrite Hstep. specialize (IH d). cbv zeta in IH. rewrite Hbuf in IH.
      rewrite drop_nil, take_nil in *. exact IH.
    + destruct (dispatch_step_work d m rest Hbuf) as (H1 & H2 & H3).
      specialize (IH (dispatch_step G d CaseLocalProcess)). cbv zeta in IH.
      rewrite H1, H2 in IH. destruct IH as (I1 & I2 & I3).
      split; [exact I1|]. split; [exact I2|]. rewrite I3.
      rewrite (filter_live_ext _ _ _ H3).
      change (take (S n) (m :: rest)) with (m :: take n rest).
      cbn [List.filter].
      destruct (live (d_heap d) m); simpl; now rewrite <- app_assoc.
Qed.

(** X16: the loop runs until the die signal and no further: the rounds
    after it never happen, whatever they would have been. When it returns
    both channels are closed and the ticker is stopped, and the work
    items still in the channel stay there: nothing is spawned for them. *)
Theorem dispatch_stops_at_die (pre post : list select_case) (d : DState) :
  Forall (fun c => is_die c = false) pre →
  let d1 := foldl (dispatch_step G) d pre in
  let out := dispatch G (pre ++ CaseDie :: post) d in
  out = (dispatch_deferred d1, true)
  ∧ d_spawned (fst out) = d_spawned d1
  ∧ ch_buf (chLocalProcess (d_h (fst out))) = ch_buf (chLocalProcess (d_h d1))
  ∧ ch_closed (chLocalProcess (d_h (fst out))) = true
  ∧ ch_closed (chCloseSession (d_h (fst out))) = true
  ∧ d_ticker_stopped (fst out) = true.
Proof.
  intros Hpre.
  assert (H : dispatch G (pre ++ CaseDie :: post) d
              = (dispatch_deferred (foldl (dispatch_step G) d pre), true)).
  { revert d. induction pre as [|c pre IH]; intros d; [reflexivity|].
    apply Forall_cons in Hpre as [Hc Hpre]. simpl.
    destruct c; try discriminate; now apply IH. }
  simpl. rewrite H. simpl. auto 10.
Qed.

(** The agents of the heap, with their [lastMid] forgotten. *)
Lemma dispatch_step_agents (d : DState) (c : select_case) :
  (fun a => set_lastMid a 0) <$> d_heap (dispatch_step G d c)
  = (fun a => set_lastMid a 0) <$> d_heap d.
Proof.
  destruct c; simpl; try reflexivity.
  - destruct (chan_recv (chLocalProcess (d_h d))) as [[m ch]|]; [|reflexivity].
    destruct (d_heap d !! um_agent m) as [a|] eqn:Ha; [|reflexivity].
    destruct (status a =? statusClosed); [reflexivity|]. simpl.
    rewrite fmap_insert. apply insert_id. rewrite lookup_fmap, Ha. reflexivity.
  - destruct (chan_recv (chCloseSession (d_h d))) as [[s ch]|]; reflexivity.
Qed.

Lemma dispatch_step_tables (d : DState) (c : select_case) :
  services (d_h (dispatch_step G d c)) = services (d_h d)
  ∧ handlers (d_h (dispatch_step G d c)) = handlers (d_h d).
Proof.
  destruct c; simpl; auto.
  - destruct (chan_recv (chLocalProcess (d_h d))) as [[m ch]|]; [|auto].
    destruct (d_heap d !! um_agent m) as [a|]; [|auto].
    destruct (status a =? statusClosed); auto.
  - destruct (chan_recv (chCloseSession (d_h d))) as [[s ch]|]; auto.
Qed.

(** X17: the dispatch loop writes nothing of an agent but its [lastMid]:
    after any run of the loop the heap holds the same agents at the same
    addresses, with the status, connection, session and time stamp they
    had; and the services and handlers of the handler service are
    untouched. *)
Theorem dispatch_only_stamps_lastMid (cases : list select_case) (d : DState) :
  (fun a => set_lastMid a 0) <$> d_heap (fst (dispatch G cases d))
  = (fun a => set_lastMid a 0) <$> d_heap d
  ∧ services (d_h (fst (dispatch G cases d))) = services (d_h d)
  ∧ handlers (d_h (fst (dispatch G cases d))) = handlers (d_h d).
Proof.
  revert d. induction cases as [|c cases IH]; intros d; [simpl; auto|].
  assert (Hstep : dispatch G (c :: cases) d
                  = if is_die c then (dispatch_deferred d, true)
                    else dispatch G cases (dispatch_step G d c))
    by (destruct c; reflexivity).
  rewrite Hstep. destruct (is_die c); [simpl; auto|].
  destruct (IH (dispatch_step G d c)) as (I1 & I2 & I3).
  destruct (dispatch_step_tables d c) as (T1 & T2).
  rewrite I1, I2, I3, dispatch_step_agents. auto.
Qed.

Lemma dispatch_step_timer (d : DState) (c : select_case) (id : Z) :
  touches_timer id c = false →
  d_timers (dispatch_step G d c) !! id = d_timers d !! id.
Proof.
  destruct c as [| | |i t|i|]; simpl; intros H; try reflexivity.
  - destruct (chan_recv (chLocalProcess (d_h d))) as [[m ch]|]; [|reflexivity].
    destruct (d_heap d !! um_agent m) as [a|]; [|reflexivity].
    destruct (status a =? statusClosed); reflexivity.
  - destruct (chan_recv (chCloseSession (d_h d))) as [[s ch]|]; reflexivity.
  - apply Z.eqb_neq in H. now apply lookup_insert_ne.
  - apply Z.eqb_neq in H. now apply lookup_delete_ne.
Qed.

(** X18: an entry of the timer table is written by the two timer cases for
    its id and by nothing else. Through any rounds that are not about
    the timer [id] (work items, session closings, ticks, other timers,
    the end of the loop) its entry stays what it was; so a timer that was
    created is found afterwards, and one that was closed is gone. *)
Theorem timer_entry_written_only_by_its_cases
        (cases : list select_case) (d : DState) (id : Z) :
  Forall (fun c => touches_timer id c = false) cases →
  d_timers (fst (dispatch G cases d)) !! id = d_timers d !! id
  ∧ (∀ t, d_timers (fst (dispatch G (CaseCreatedTimer id t :: cases) d)) !! id = Some t)
  ∧ d_timers (fst (dispatch G (CaseClosingTimer id :: cases) d)) !! id = None.
Proof.
  intros Hall.
  assert (Hkeep : ∀ d0, d_timers (fst (dispatch G cases d0)) !! id = d_timers d0 !! id).
  { induction cases as [|c cases IH]; intros d0; [reflexivity|].
    apply Forall_cons in Hall as [Hc Hall].
    assert (Hstep : dispatch G (c :: cases) d0
                    = if is_die c then (dispatch_deferred d0, true)
                      else dispatch G cases (dispatch_step G d0 c))
      by (destruct c; reflexivity).
    rewrite Hstep. destruct (is_die c); [reflexivity|].
    rewrite (IH Hall). now apply dispatch_step_timer. }
  split; [apply Hkeep|]. split.
  - intros t. simpl. rewrite Hkeep. simpl. apply lookup_insert_eq.
  - simpl. rewrite Hkeep. simpl. apply lookup_delete_eq.
Qed.

(** X19: the session-close callbacks run under a recover: [onSessionClosed]
    returns normally whatever they do. They run in order; when none
    panics nothing is logged; when one panics the panic and the stack are
    logged and the callbacks after it are not run, so that they make no
    difference. *)
Theorem onSessionClosed_contains_faults (s : Session) :
  fst (onSessionClosed G s) = Done tt
  ∧ (Forall (fun fn => fn s = Done tt) (callbacks (env G)) →
     snd (onSessionClosed G s) = [])
  ∧ (∀ pre fn post v,
        callbacks (env G) = pre ++ fn :: post →
        Forall (fun g => g s = Done tt) pre →
        fn s = Panic v →
        snd (onSessionClosed G s) = [LogSessionClosedPanic v; LogStack]).
Proof.
  unfold onSessionClosed.
  assert (Hall : ∀ fns, Forall (fun fn => fn s = Done tt) fns → run_callbacks fns s = Done tt).
  { induction fns as [|fn fns IH]; intros H; [reflexivity|].
    apply Forall_cons in H as [H1 H2]. simpl. rewrite H1. now apply IH. }
  assert (Hpanic : ∀ pre fn post v, Forall (fun g => g s = Done tt) pre → fn s = Panic v →
                     run_callbacks (pre ++ fn :: post) s = Panic v).
  { induction pre as [|g pre IH]; intros fn post v H Hfn; simpl.
    - now rewrite Hfn.
    - apply Forall_cons in H as [H1 H2]. rewrite H1. now apply IH. }
  split; [destruct (run_callbacks _ s) as [[]|v]; reflexivity|]. split.
  - intros H. now rewrite (Hall _ H).
  - intros pre fn post v Hcb Hpre Hfn. now rewrite Hcb, (Hpanic pre fn post v Hpre Hfn).
Qed.

End DispatchLoop.

(** * Further properties of the registration *)

Section RegisterEffects.

Variable sname : string.



(** One fresh route more keeps the aliases the numbers from 1 to the
    size of the dictionary. *)
Lemma assign_alias_dense (d : gmap string Z) (k : string) :
  aliases_dense d →
  d !! fullName sname k = None →
  Z.of_nat (size d) + 1 ≤ 65535 →
  aliases_dense (assign_alias sname d k)
  ∧ size (assign_alias sname d k) = S (size d).
Proof.
  intros [Hrange Hinj] Hfresh Hbound.
  assert (Hsize : size (assign_alias sname d k) = S (size d))
    by (unfold assign_alias; now apply map_size_insert_None).
  assert (Hval : uint16 (uint16 (Z.of_nat (size d)) + 1) = Z.of_nat (size d) + 1).
  { rewrite (uint16_small (Z.of_nat (size d))) by lia. apply uint16_small. lia. }
  split; [|exact Hsize]. split.
  - intros r v. rewrite Hsize. unfold assign_alias. rewrite Hval.
    destruct (decide (r = fullName sname k)) as [-> | Hne].
    + rewrite lookup_insert_eq. intros H; inversion H; subst. lia.
    + rewrite lookup_insert_ne by congruence. intros H.
      specialize (Hrange r v H). lia.
  - intros r1 r2 v. unfold assign_alias. rewrite Hval.
    destruct (decide (r1 = fullName sname k)) as [-> | Hne1];
      destruct (decide (r2 = fullName sname k)) as [-> | Hne2];
      rewrite ?lookup_insert_eq, ?lookup_insert_ne by congruence.
    + reflexivity.
    + intros H1 H2. inversion H1; subst. specialize (Hrange r2 _ H2). lia.
    + intros H1 H2. inversion H2; subst. specialize (Hrange r1 _ H1). lia.
    + apply Hinj.
Qed.

Lemma fold_assign_alias_dense (ks : list string) (d : gmap string Z) :
  aliases_dense d →
  NoDup ks →
  (∀ k, k ∈ ks → d !! fullName sname k = None) →
  Z.of_nat (size d) + Z.of_nat (length ks) ≤ 65535 →
  aliases_dense (foldl (assign_alias sname) d ks)
  ∧ size (foldl (assign_alias sname) d ks) = (size d + length ks)%nat.
Proof.
  revert d. induction ks as [|k ks IH]; intros d Hd Hnd Hfresh Hbound; simpl.
  - split; [exact Hd | lia].
  - apply NoDup_cons in Hnd as [Hk Hnd]. simpl in Hbound.
    destruct (assign_alias_dense d k Hd) as (Hd1 & Hs1); [apply Hfresh; left | lia |].
    destruct (IH (assign_alias sname d k) Hd1 Hnd) as (Hd2 & Hs2).
    + intros k' Hk'. unfold assign_alias. rewrite lookup_insert_ne.
      * apply Hfresh. now right.
      * intros Heq. apply fullName_inj in Heq. congruence.
    + rewrite Hs1. lia.
    + split; [exact Hd2 | rewrite Hs2, Hs1; lia].
Qed.

End RegisterEffects.


(** X21: registrations keep the alias dictionary a numbering: when the
    aliases are the numbers from 1 to the size of the dictionary, each
    used for one route, they still are after a registration that
    succeeds (for routes not yet in the dictionary, within 16 bits), and
    the dictionary has grown by the number of handlers of the component.
    In particular no alias is 0 and no two routes share one. *)
Theorem register_keeps_aliases_dense
        (R : Registry) (comp : Component) (order : list string)
        (hs : gmap string Handler) :
  aliases_dense (dict (env (r_pkg R))) →
  services (r_h R) !! comp_Name comp = None →
  comp_Extract comp = Ok hs →
  range_order hs order →
  (∀ k, k ∈ order → dict (env (r_pkg R)) !! fullName (comp_Name comp) k = None) →
  Z.of_nat (size (dict (env (r_pkg R)))) + Z.of_nat (size hs) ≤ 65535 →
  ∃ R', register R comp order = (R', None)
        ∧ aliases_dense (dict (env (r_pkg R')))
        ∧ size (dict (env (r_pkg R'))) = (size (dict (env (r_pkg R))) + size hs)%nat
        ∧ aliases_dense (message_routes (r_pkg R')).
Proof.
  intros Hd Hnew Hex [Hnd Hall] Hfresh Hbound.
  assert (Hlen : length order = size hs).
  { assert (Hdom : dom hs = (list_to_set order : gset string)).
    { apply set_eq. intros k. rewrite elem_of_list_to_set, elem_of_dom. symmetry. apply Hall. }
    rewrite <- (size_list_to_set (C := gset string) order Hnd), <- Hdom.
    apply size_dom. }
  destruct (register_success R comp order hs Hnew Hex)
    as (R' & Hreg & _ & Hdict & Hpub & _).
  assert (Hnames : (range_entries hs order).*1 = order).
  { apply range_entries_names. intros k Hk. now apply Hall. }
  rewrite Hnames in Hdict.
  destruct (fold_assign_alias_dense (comp_Name comp) order _ Hd Hnd Hfresh) as (D1 & D2);
    [rewrite Hlen; exact Hbound|].
  exists R'. split; [exact Hreg|]. rewrite Hpub, Hdict, <- Hlen. auto.
Qed.

(** X22: registering the same component a second time fails: after a
    registration that succeeded, any further registration of a component
    with the same service name returns the duplicate-service error and
    changes nothing, whatever its handlers are. *)
Theorem register_twice_fails
        (R R' : Registry) (comp comp2 : Component) (order order2 : list string) :
  register R comp order = (R', None) →
  comp_Name comp2 = comp_Name comp →
  register R' comp2 order2
  = (R', Some ("handler: service already defined: " +:+ comp_Name comp)).
Proof.
  intros Hreg Hname. unfold register in Hreg.
  destruct (services (r_h R) !! comp_Name comp) eqn:Hs; [discriminate|].
  destruct (comp_Extract comp) as [hs|e] eqn:Hex; [|discriminate].
  destruct (register_success R comp order hs Hs Hex) as (R2 & Hreg2 & Hsv & _).
  unfold register in Hreg2. rewrite Hs, Hex in Hreg2. rewrite Hreg in Hreg2.
  inversion Hreg2; subst R2.
  unfold register. rewrite Hname, Hsv, lookup_insert_eq. reflexivity.
Qed.

(** X23: a route that was registered is routable: after a registration
    that succeeded, a message for the route of one of the component's
    handlers, on a reader that works with the resulting handler service,
    is not dropped once its payload passes the pipeline and (unless the
    handler takes the raw bytes) deserializes, and the work item made for
    it names that handler's method. *)
Theorem registered_route_is_routable
        (X : Externals) (G : Pkg) (now : Z)
        (R R' : Registry) (comp : Component) (order : list string)
        (hs : gmap string Handler) (k : string) (v : Handler)
        (st st' : RState) (msg : message.Message) (payload : bytes) (r : msg_result) :
  register R comp order = (R', None) →
  comp_Extract comp = Ok hs →
  range_order hs order →
  hs !! k = Some v →
  rs_h st = r_h R' →
  message.m_Route msg = fullName (comp_Name comp) k →
  run_pipeline (Pipeline_Inbound G) (session (rs_agent st)) (message.m_Data msg)
    = Ok payload →
  (IsRawArg v = true ∨ ∃ o, Unmarshal X (Type_ v) payload = Ok o) →
  processMessage X G now st msg = (st', r) →
  r ≠ MDropped ∧ ∀ m, produced st' r = Some m → um_handler m = Method v.
Proof.
  intros Hreg Hex [Hnd Hall] Hk Hst Hroute Hpipe Hdes.
  assert (Hnew : services (r_h R) !! comp_Name comp = None).
  { unfold register in Hreg. destruct (services (r_h R) !! comp_Name comp); [discriminate|reflexivity]. }
  destruct (register_success R comp order hs Hnew Hex) as (R2 & Hreg2 & _ & _ & _ & Hh).
  rewrite Hreg in Hreg2. inversion Hreg2; subst R2.
  assert (Hnames : (range_entries hs order).*1 = order).
  { apply range_entries_names. intros k' Hk'. now apply Hall. }
  assert (Hlook : handlers (rs_h st) !! message.m_Route msg = Some v).
  { rewrite Hst, Hroute. apply Hh; [now rewrite Hnames|].
    apply range_entries_elem; [|exact Hk]. apply Hall. eauto. }
  unfold processMessage. rewrite Hlook, Hpipe.
  assert (Hdec : ∃ data, (if IsRawArg v then Ok (RawData payload)
                          else match Unmarshal X (Type_ v) payload with
                               | Ok o => Ok (Decoded (Type_ v) o)
                               | Err e => Err e
                               end) = Ok data).
  { destruct (IsRawArg v); [eauto|]. destruct Hdes as [Hraw | (o & Ho)]; [discriminate|].
    rewrite Ho. eauto. }
  destruct Hdec as (data & Hdec). rewrite Hdec.
  set (item := MkUnhandled _ _ _ _).
  assert (Hitem : um_handler item = Method v) by reflexivity.
  clearbody item. unfold chan_send.
  destruct (ch_closed _).
  { intros H; inversion H; subst. split; [discriminate|]. intros m Hm; discriminate. }
  destruct (_ <? _)%nat; intros H; inversion H; subst; (split; [discriminate|]);
    simpl; intros m Hm.
  - rewrite last_snoc in Hm. inversion Hm; subst. exact Hitem.
  - inversion Hm; subst. exact Hitem.
Qed.

(** * The further properties on the sample configuration *)

Lemma handshake_auth_accepted_witness :
  ∃ st', processPacket Sample.X0 Sample.G_accept 5 Sample.st0
                       (packet.MkPacket packet.Handshake []) = (st', PReturn None)
         ∧ written (conn (rs_agent st')) = [] ++ [Sample.hrd0]
         ∧ Auth (session (rs_agent st')) = true
         ∧ status (rs_agent st') = statusHandshake.
Proof.
  apply (handshake_auth_accepted Sample.X0 Sample.G_accept 5 Sample.st0
           (packet.MkPacket packet.Handshake []) (fun _ _ => None)); reflexivity.
Defined.

Lemma handshake_write_fails_witness :
  ∃ st', processPacket Sample.X0 Sample.G_noauth 5
                       (MkRState Sample.h0 (newAgent 1 Sample.conn_broken Sample.sess0 100) [])
                       (packet.MkPacket packet.Handshake [])
         = (st', PReturn (Some "broken pipe"))
         ∧ Auth (session (rs_agent st')) = false
         ∧ status (rs_agent st') = statusStart
         ∧ written (conn (rs_agent st')) = [].
Proof.
  apply (handshake_write_fails Sample.X0 Sample.G_noauth 5
           (MkRState Sample.h0 (newAgent 1 Sample.conn_broken Sample.sess0 100) [])
           (packet.MkPacket packet.Handshake []) "broken pipe").
  - reflexivity.
  - intros auth H. discriminate.
  - reflexivity.
Defined.

Lemma lastAt_set_on_nil_return_witness :
  lastAt (rs_agent (fst (processPacket Sample.X0 Sample.G_noauth 5 Sample.st0
                           (packet.MkPacket packet.Heartbeat [])))) = 5.
Proof.
  apply (lastAt_set_on_nil_return Sample.X0 Sample.G_noauth 5 Sample.st0 _
           (packet.MkPacket packet.Heartbeat []) None).
  vm_compute. reflexivity.
Defined.

Lemma status_changes_only_by_handshake_witness :
  status (rs_agent (fst (processPacket Sample.X0 Sample.G_noauth 5 Sample.st_working
                           (packet.MkPacket packet.Data [Byte.x00]))))
  = status (rs_agent Sample.st_working)
  ∨ (packet.Data = packet.Handshake
     ∧ status (rs_agent (fst (processPacket Sample.X0 Sample.G_noauth 5 Sample.st_working
                                (packet.MkPacket packet.Data [Byte.x00]))))
       = statusHandshake
     ∧ is_Some (authFunc (env Sample.G_noauth)))
  ∨ (packet.Data = packet.HandshakeAck
     ∧ status (rs_agent (fst (processPacket Sample.X0 Sample.G_noauth 5 Sample.st_working
                                (packet.MkPacket packet.Data [Byte.x00]))))
       = statusWorking).
Proof.
  apply (status_changes_only_by_handshake Sample.X0 Sample.G_noauth 5 Sample.st_working _
           (packet.MkPacket packet.Data [Byte.x00]) (PReturn None)).
  vm_compute. reflexivity.
Defined.

Lemma keepalive_only_refreshes_lastAt_witness :
  processPackets Sample.X0 Sample.G_noauth 5 Sample.st_working
                 [packet.MkPacket packet.Heartbeat []; packet.MkPacket packet.Other [];
                  packet.MkPacket packet.Heartbeat []]
  = (with_agent Sample.st_working (set_lastAt (rs_agent Sample.st_working) 5), PReturn None).
Proof.
  apply (keepalive_only_refreshes_lastAt Sample.X0 Sample.G_noauth 5 Sample.st_working).
  - repeat constructor.
  - discriminate.
Defined.

Lemma handshake_again_demotes_witness :
  ∃ st' e,
    processPackets Sample.X0 Sample.G_accept 5 Sample.st_working
                   [packet.MkPacket packet.Handshake []; packet.MkPacket packet.Data [Byte.x00]]
    = (st', PReturn (Some e))
    ∧ status (rs_agent st') = statusHandshake.
Proof.
  destruct (handshake_again_demotes Sample.X0 Sample.G_accept 5 Sample.st_working
              (packet.MkPacket packet.Handshake []) (packet.MkPacket packet.Data [Byte.x00])
              (fun _ _ => None) [])
    as (st' & e & H1 & H2 & _); try reflexivity.
  exists st', e. split; assumption.
Defined.

Lemma undecodable_message_ends_loop_witness :
  processPacket Sample.X0 Sample.G_noauth 5 Sample.st_working
                (packet.MkPacket packet.Data [Byte.x09])
  = (Sample.st_working, PReturn (Some "wrong message type")).
Proof.
  apply (undecodable_message_ends_loop Sample.X0 Sample.G_noauth 5 Sample.st_working
           (packet.MkPacket packet.Data [Byte.x09]) "wrong message type").
  - reflexivity.
  - vm_compute. discriminate.
  - reflexivity.
Defined.

Lemma rejected_handshake_does_not_stop_batch_witness :
  ∃ st',
    processPackets Sample.X0 Sample.G_reject 5 Sample.st0
                   [packet.MkPacket packet.Handshake []; packet.MkPacket packet.HandshakeAck [];
                    packet.MkPacket packet.Data [Byte.x00]]
    = processPackets Sample.X0 Sample.G_reject 5 st' [packet.MkPacket packet.Data [Byte.x00]]
    ∧ kicked (rs_agent st') = Some "invalid token"
    ∧ status (rs_agent st') = statusWorking.
Proof.
  destruct (rejected_handshake_does_not_stop_batch Sample.X0 Sample.G_reject 5 Sample.st0
              (packet.MkPacket packet.Handshake []) (packet.MkPacket packet.HandshakeAck [])
              (fun _ _ => Some "invalid token") "invalid token"
              [packet.MkPacket packet.Data [Byte.x00]])
    as (st' & H1 & H2 & H3 & _); try reflexivity.
  exists st'. repeat split; assumption.
Defined.

Lemma dispatch_stops_at_die_witness :
  d_spawned (fst (dispatch Sample.G_noauth
                    ([CaseLocalProcess; CaseTicker] ++ CaseDie :: [CaseLocalProcess])
                    Sample.d0))
  = d_spawned (foldl (dispatch_step Sample.G_noauth) Sample.d0 [CaseLocalProcess; CaseTicker])
  ∧ ch_closed (chLocalProcess (d_h (fst (dispatch Sample.G_noauth
                    ([CaseLocalProcess; CaseTicker] ++ CaseDie :: [CaseLocalProcess])
                    Sample.d0)))) = true.
Proof.
  destruct (dispatch_stops_at_die Sample.G_noauth [CaseLocalProcess; CaseTicker]
              [CaseLocalProcess] Sample.d0) as (_ & H2 & _ & H4 & _).
  - repeat constructor.
  - split; assumption.
Defined.

Lemma timer_entry_written_only_by_its_cases_witness :
  d_timers (fst (dispatch Sample.G_noauth
                   (CaseCreatedTimer 7 42 :: [CaseTicker; CaseCreatedTimer 8 1; CaseClosingTimer 8])
                   Sample.d0)) !! 7 = Some 42.
Proof.
  destruct (timer_entry_written_only_by_its_cases Sample.G_noauth
              [CaseTicker; CaseCreatedTimer 8 1; CaseClosingTimer 8] Sample.d0 7)
    as (_ & H & _).
  - repeat constructor.
  - apply H.
Defined.

Lemma aliases_dense_empty : aliases_dense ∅.
Proof.
  split; intros *; rewrite lookup_empty; discriminate.
Qed.


Lemma register_keeps_aliases_dense_witness :
  ∃ R', register Sample.R0 Sample.room ["Join"; "Leave"] = (R', None)
        ∧ aliases_dense (dict (env (r_pkg R')))
        ∧ size (dict (env (r_pkg R'))) = (0 + 2)%nat.
Proof.
  destruct (register_keeps_aliases_dense Sample.R0 Sample.room ["Join"; "Leave"]
              Sample.roomHandlers) as (R' & H1 & H2 & H3 & _).
  - exact aliases_dense_empty.
  - reflexivity.
  - reflexivity.
  - exact range_order_room_JL.
  - intros k _. reflexivity.
  - vm_compute. discriminate.
  - exists R'. split; [exact H1|]. split; [exact H2|exact H3].
Defined.

Lemma register_twice_fails_witness :
  register Sample.R_room Sample.room ["Leave"; "Join"]
  = (Sample.R_room, Some "handler: service already defined: room").
Proof.
  apply (register_twice_fails Sample.R0 Sample.R_room Sample.room Sample.room
           ["Join"; "Leave"] ["Leave"; "Join"]).
  - vm_compute. reflexivity.
  - reflexivity.
Defined.

Lemma registered_route_is_routable_witness :
  snd (processMessage Sample.X0 Sample.G_noauth 5
         (MkRState (r_h Sample.R_room) (setStatus Sample.agent0 statusWorking) [])
         (message.MkMessage message.Notify 0 "room.Join" []))
  ≠ MDropped.
Proof.
  destruct (registered_route_is_routable Sample.X0 Sample.G_noauth 5
              Sample.R0 Sample.R_room Sample.room ["Join"; "Leave"] Sample.roomHandlers
              "Join" Sample.joinHandler
              (MkRState (r_h Sample.R_room) (setStatus Sample.agent0 statusWorking) [])
              (fst (processMessage Sample.X0 Sample.G_noauth 5
                      (MkRState (r_h Sample.R_room) (setStatus Sample.agent0 statusWorking) [])
                      (message.MkMessage message.Notify 0 "room.Join" [])))
              (message.MkMessage message.Notify 0 "room.Join" []) []
              (snd (processMessage Sample.X0 Sample.G_noauth 5
                      (MkRState (r_h Sample.R_room) (setStatus Sample.agent0 statusWorking) [])
                      (message.MkMessage message.Notify 0 "room.Join" []))))
    as (H & _).
  - vm_compute. reflexivity.
  - reflexivity.
  - exact range_order_room_JL.
  - vm_compute. reflexivity.
  - reflexivity.
  - reflexivity.
  - reflexivity.
  - right. exists "{}". reflexivity.
  - vm_compute. reflexivity.
  - exact H.
Defined.
